(** * Hand-Keypoint-Estimation: discrepancy loss and PCK evaluation

    A shallow embedding of [lib/model/disc.py] and [lib/utils.py].

    Numbers.  The Python code computes on IEEE floats; the embedding computes
    on exact rationals [Q], so rounding, infinities and not-a-number inputs
    are outside the model.  The one not-a-number the code can produce from
    finite data, the mean of a tensor without elements, is kept: see [scalar].
    A fact whose conclusion rounding could change carries the hypotheses
    under which the two arithmetics agree.

    Tensors.  A torch tensor or numpy array is a shape and a row-major buffer
    ([tensor]).  Iterating an array ([for m in heat_map]) walks its slices
    along axis 0 ([unbind]).

    Effects.  [evaluate] mutates the [training] attribute of the network
    objects it is given and calls into plotting and logging.  The network
    objects live in a store indexed by object identity, so that the same
    object passed twice is one cell; the calls leave a trace.  A Python
    exception is a [Raise] result that skips the rest of the function.
    A network is a callable that returns a tensor or raises.  Of the modules
    nested in it the model keeps the identities, which [net.eval()] and
    [net.train(mode)] reach; its parameters and the gradient bookkeeping of
    [torch.no_grad] are not modelled, and [tqdm] is the iteration it wraps.

    [gaussian_kernel] of lib/utils.py is used by none of the other
    functions; it calls [np.exp], so its entries are real numbers [R]. *)

From Stdlib Require Import QArith Qabs Qround Reals Qreals Psatz Lia ZArith.
From stdpp Require Import base list gmap strings.

(** ** Python exceptions and the result of a call *)

Module Py.

Inductive exn : Type :=
  | AssertionError (msg : string)
  | StopIteration
  | AttributeError
  | ValueError
  | TypeError
  | IndexError
  | RuntimeError
  | ZeroDivisionError
  | Unmodelled.   (* behaviour of the libraries that the embedding leaves out *)

Inductive result (A : Type) : Type :=
  | Ok (a : A)
  | Raise (e : exn).
Arguments Ok {A} a.
Arguments Raise {A} e.

Definition bind {A B} (r : result A) (k : A -> result B) : result B :=
  match r with
  | Ok a => k a
  | Raise e => Raise e
  end.

Fixpoint mapM {A B} (f : A -> result B) (l : list A) : result (list B) :=
  match l with
  | [] => Ok []
  | x :: l' => bind (f x) (fun y => bind (mapM f l') (fun ys => Ok (y :: ys)))
  end.

End Py.
Import Py.

Notation "'let*' x := c 'in' k" := (Py.bind c (fun x => k))
  (at level 10, x pattern, c at level 100, k at level 200).

(** ** Tensors *)

Module Torch.

Record tensor : Type := Tensor {
  shape : list nat;
  data : list Q;
  requires_grad : bool
}.

Definition prod_shape (s : list nat) : nat := foldr Nat.mul 1%nat s.

(** [t.numel()] *)
Definition numel (t : tensor) : nat := prod_shape (shape t).

Definition tensor_wf (t : tensor) : Prop := length (data t) = numel t.

(** The value of a zero-dimensional result: a number, or the not-a-number
    that [mean] gives for a tensor without elements (0/0). *)
Inductive scalar : Type :=
  | Num (q : Q)
  | NaN.

Definition scalar_eq (a : scalar) (q : Q) : Prop :=
  match a with
  | Num x => (x == q)%Q
  | NaN => False
  end.

Definition scalar_nonneg (a : scalar) : Prop :=
  match a with
  | Num x => (0 <= x)%Q
  | NaN => False
  end.

Definition ssub (a b : scalar) : scalar :=
  match a, b with
  | Num x, Num y => Num (x - y)
  | _, _ => NaN
  end.

Definition sabs (a : scalar) : scalar :=
  match a with
  | Num x => Num (Qabs x)
  | NaN => NaN
  end.

Definition Qsum (l : list Q) : Q := foldr Qplus 0%Q l.

(** A count or a size used as a number. *)
Definition Qnat (n : nat) : Q := inject_Z (Z.of_nat n).

Definition Qltb (a b : Q) : bool := negb (Qle_bool b a).

(** Broadcasting: the shapes are aligned at their last axis; two sizes are
    compatible when they are equal or one of them is 1. *)
Fixpoint compatible_rev (a b : list nat) : bool :=
  match a, b with
  | x :: a', y :: b' =>
      ((x =? y)%nat || (x =? 1)%nat || (y =? 1)%nat) && compatible_rev a' b'
  | _, _ => true
  end.

Definition broadcastable (s1 s2 : list nat) : bool :=
  compatible_rev (rev s1) (rev s2).

(** An elementwise binary operator.  On equal shapes it works element by
    element.  Shapes that cannot be broadcast raise [RuntimeError].  The
    expansion of different but compatible shapes, on which torch returns, is
    left out: a fact that says such an operation returns fixes equal
    shapes. *)
Definition elementwise (f : Q -> Q -> Q) (a b : tensor) : result tensor :=
  if decide (shape a = shape b) then
    Ok (Tensor (shape a) (zip_with f (data a) (data b))
               (requires_grad a || requires_grad b))
  else if broadcastable (shape a) (shape b) then Raise Unmodelled
  else Raise RuntimeError.

(** An operator between a tensor and a Python number. *)
Definition pointwise (f : Q -> Q) (t : tensor) : tensor :=
  Tensor (shape t) (f <$> data t) (requires_grad t).

(** [n < beta]: a boolean tensor of the shape of [n]. *)
Definition lt_scalar (n : tensor) (beta : Q) : list bool :=
  (fun x => Qltb x beta) <$> data n.

Fixpoint where_data (cond : list bool) (a b : list Q) : list Q :=
  match cond, a, b with
  | c :: cond', x :: a', y :: b' => (if c then x else y) :: where_data cond' a' b'
  | _, _, _ => []
  end.

(** [torch.where(cond, a, b)] on operands of one shape. *)
Definition where_ (cond : list bool) (a b : tensor) : result tensor :=
  if decide (shape a = shape b) then
    Ok (Tensor (shape a) (where_data cond (data a) (data b))
               (requires_grad a || requires_grad b))
  else if broadcastable (shape a) (shape b) then Raise Unmodelled
  else Raise RuntimeError.

(** [t.sum()] *)
Definition tsum (t : tensor) : scalar := Num (Qsum (data t)).

(** [t.mean()]: the sum over the number of elements; not-a-number when the
    tensor has no element. *)
Definition tmean (t : tensor) : scalar :=
  if (numel t =? 0)%nat then NaN
  else Num (Qsum (data t) / Qnat (numel t)).

(** [t.detach()] *)
Definition detach (t : tensor) : tensor :=
  Tensor (shape t) (data t) false.

(** [torch.cat([a, b], dim=0)].  The operands agree on every axis but the
    first; a one-dimensional tensor of shape (0,) is accepted with any other
    operand and contributes nothing.  In a row-major buffer the slices along
    axis 0 are consecutive, so the buffers are appended. *)
Definition cat0 (a b : tensor) : result tensor :=
  let rg := requires_grad a || requires_grad b in
  if decide (shape a = [0%nat]) then Ok (Tensor (shape b) (data a ++ data b) rg)
  else if decide (shape b = [0%nat]) then Ok (Tensor (shape a) (data a ++ data b) rg)
  else match shape a, shape b with
       | na :: ra, nb :: rb =>
           if decide (ra = rb) then Ok (Tensor ((na + nb)%nat :: ra) (data a ++ data b) rg)
           else Raise RuntimeError
       | _, _ => Raise RuntimeError
       end.

End Torch.
Import Torch.

(** ** lib/model/disc.py *)

Module Disc.

(** [smooth_l1_loss(input, target, beta=1, size_average=True)] *)
Definition smooth_l1_loss (input target : tensor) (beta : Q) (size_average : bool)
  : result scalar :=
  let* d := elementwise Qminus input target in
  let n := pointwise Qabs d in
  let cond := lt_scalar n beta in
  let* loss := where_ cond
                 (pointwise (fun x => 0.5 * x ^ 2 / beta)%Q n)
                 (pointwise (fun x => x - 0.5 * beta)%Q n) in
  if size_average then Ok (tmean loss) else Ok (tsum loss).

(** The default value of the [criterion] parameter of [discrepancy]. *)
Definition default_criterion (a b : tensor) : result scalar :=
  smooth_l1_loss a b 1 true.

(** [discrepancy(source_data, target_data, base_net, h1, h2, criterion)].
    The networks are callables that return a tensor or raise. *)
Definition discrepancy {X : Type} (source_data target_data : X)
    (base_net : X -> result tensor) (h1 h2 : tensor -> result tensor)
    (criterion : tensor -> tensor -> result scalar)
  : result (tensor * scalar) :=
  let* source_feat := base_net source_data in
  let* target_feat := base_net target_data in
  let* cat := cat0 source_feat target_feat in
  let union_feat := detach cat in
  let* src_h1 := h1 source_feat in
  let* src_h2 := h2 source_feat in
  let* tgt_h1 := h1 target_feat in
  let* tgt_h2 := h2 target_feat in
  let* src_disc := criterion src_h1 src_h2 in
  let* tgt_disc := criterion tgt_h1 tgt_h2 in
  Ok (union_feat, sabs (ssub src_disc tgt_disc)).

(** The loss in the words of its description: the contribution of one pair
    of elements. *)
Definition contribution (beta x y : Q) : Q :=
  let n := Qabs (x - y) in
  if Qltb n beta then (0.5 * n ^ 2 / beta)%Q else (n - 0.5 * beta)%Q.

End Disc.

(** ** lib/utils.py: the metric and the keypoint extraction *)

Module Utils.

(** [n] consecutive chunks of [k] elements of a buffer. *)
Fixpoint chunks (n k : nat) (l : list Q) : list (list Q) :=
  match n with
  | O => []
  | S n' => take k l :: chunks n' k (drop k l)
  end.

(** [for x in t]: the slices of [t] along its first axis. *)
Definition unbind (t : tensor) : result (list tensor) :=
  match shape t with
  | [] => Raise TypeError
  | n :: rest =>
      Ok ((fun d => Tensor rest d (requires_grad t)) <$> chunks n (prod_shape rest) (data t))
  end.

(** [int(x)]: truncation towards zero. *)
Definition py_int (q : Q) : Z :=
  if Qle_bool 0 q then Qfloor q else Qceiling q.

(** [x ** 0.5 < t] for [x >= 0], decided without a square root: see
    [sqrt_lt_real] for the agreement with the real square root. *)
Definition sqrt_lt (x t : Q) : bool :=
  Qltb 0 t && Qltb x (t * t).

(** [torch.sum(t, dim=2)] for a tensor of three axes.  With fewer axes torch
    raises [IndexError]; more axes are left out. *)
Definition sum_dim2 (t : tensor) : result tensor :=
  match shape t with
  | [n; c; k] =>
      Ok (Tensor [n; c] (Qsum <$> chunks (n * c) k (data t)) (requires_grad t))
  | [] | [_] | [_; _] => Raise IndexError
  | _ => Raise Unmodelled
  end.

Definition count_true (l : list bool) : nat := length (filter (fun b => b = true) l).

(** [PCK(pred, gt, img_side_len, alpha=0.2)].  [dis] holds the squared
    distances; the square root is taken inside the comparison [sqrt_lt]. *)
Definition PCK (pred gt : tensor) (img_side_len alpha : Q) : result (Q * Q) :=
  let norm_dis := (alpha * img_side_len)%Q in
  let* dis := elementwise Qminus pred gt in
  let dis := pointwise (fun x => x ^ 2)%Q dis in
  let* dis := sum_dim2 dis in
  let nkpt := Qnat (count_true ((fun d => sqrt_lt d norm_dis) <$> data dis)) in
  if (numel dis =? 0)%nat then Raise ZeroDivisionError
  else Ok ((nkpt / Qnat (numel dis))%Q, nkpt).

(** [PCK_curve_pnts(sp, pred, gt, img_side_len)] *)
Definition PCK_curve_pnts (sp : list Q) (pred gt : tensor) (img_side_len : Q)
  : result (list Q) :=
  mapM (fun a => let* r := PCK pred gt img_side_len a in Ok (snd r)) sp.

(** [m.argmax()] of numpy: a scan that moves to a later element only when it
    is strictly larger than the best one so far. *)
Fixpoint argmax_from (best : Q) (besti i : nat) (l : list Q) : nat :=
  match l with
  | [] => besti
  | x :: l' =>
      if Qltb best x then argmax_from x i (S i) l'
      else argmax_from best besti (S i) l'
  end.

Definition argmax (l : list Q) : result nat :=
  match l with
  | [] => Raise ValueError
  | x :: l' => Ok (argmax_from x 0 1 l')
  end.

(** [np.unravel_index(idx, shape)], row-major. *)
Fixpoint unravel (idx : nat) (s : list nat) : list nat :=
  match s with
  | [] => []
  | d :: rest => ((idx / prod_shape rest) mod d)%nat :: unravel idx rest
  end.

Definition unravel_index (idx : nat) (s : list nat) : result (list nat) :=
  if (idx <? prod_shape s)%nat then Ok (unravel idx s) else Raise ValueError.

(** The body of the inner loop of [get_kpts] for one channel [m].  The
    unpacking [h, w = ...] needs an index of two coordinates.  [m.argmax()]
    has already failed on a map without elements, so [m.shape[1]] and
    [m.shape[0]] are not zero where the quotients are taken.  The quotients
    are exact here and rounded in the code: the two agree on whole-number
    target sizes below 2^53 over the size of the map. *)
Definition kpt_of_map (img_h img_w : Q) (m : tensor) : result (Z * Z) :=
  let* i := argmax (data m) in
  let* hw := unravel_index i (shape m) in
  match hw, shape m with
  | [h; w], [shape0; shape1] =>
      let x := py_int (Qnat w * img_w / Qnat shape1) in
      let y := py_int (Qnat h * img_h / Qnat shape0) in
      Ok (x, y)
  | _, _ => Raise ValueError
  end.

(** The two loops of [get_kpts]: [all_kpts] before it is packed. *)
Definition get_kpts_list (maps : tensor) (img_h img_w : Q) : result (list (list (Z * Z))) :=
  let* heat_maps := unbind maps in
  mapM (fun heat_map =>
          let* ms := unbind heat_map in
          mapM (kpt_of_map img_h img_w) ms) heat_maps.

(** [np.array(all_kpts)] on the nested list that [get_kpts] builds: every
    inner list has the same length, and every point is a list of two.
    Coordinates that do not fit a 64-bit integer, for which [np.array] builds
    an array of objects that [torch.from_numpy] rejects, are outside the
    model: a fact that says which tensor [get_kpts] returns bounds the target
    size. *)
Definition np_array (all_kpts : list (list (Z * Z))) : tensor :=
  match all_kpts with
  | [] => Tensor [0%nat] [] false
  | [] :: _ => Tensor [length all_kpts; 0%nat] [] false
  | (_ :: _) as kpts :: _ =>
      Tensor [length all_kpts; length kpts; 2%nat]
             (concat ((fun kpts => concat ((fun p => [inject_Z (fst p); inject_Z (snd p)]) <$> kpts))
                        <$> all_kpts))
             false
  end.

(** [get_kpts(maps, img_h=368.0, img_w=368.0)] *)
Definition get_kpts (maps : tensor) (img_h img_w : Q) : result tensor :=
  let* all_kpts := get_kpts_list maps img_h img_w in
  Ok (np_array all_kpts).

(** The words used to state what [get_kpts] finds.  [channel maps b c] is
    the row-major buffer of [maps[b, c]]; [first_max l i] says that [l[i]] is
    a largest element of [l] and that every element before it is smaller. *)
Definition channel (maps : tensor) (b c : nat) : list Q :=
  match shape maps with
  | [_; nc; h; w] => take (h * w) (drop ((b * nc + c) * (h * w)) (data maps))
  | _ => []
  end.

Definition first_max (l : list Q) (i : nat) : Prop :=
  exists v : Q, l !! i = Some v /\
    (forall (j : nat) (u : Q), l !! j = Some u -> (u <= v)%Q) /\
    (forall (j : nat) (u : Q), (j < i)%nat -> l !! j = Some u -> (u < v)%Q).

(** The keypoint that [get_kpts] computes from the flat index [i] of the
    maximum of a map of [nh] rows and [nw] columns: [h = i / nw] is the row
    and [w = i mod nw] the column. *)
Definition kpt_at (nh nw : nat) (img_h img_w : Q) (i : nat) : Z * Z :=
  (py_int (Qnat (i mod nw) * img_w / Qnat nw), py_int (Qnat (i / nw) * img_h / Qnat nh)).

(** [np.linspace(start, stop, num)] with the end point included. *)
Definition linspace (start stop : Q) (num : nat) : list Q :=
  let div := (num - 1)%nat in
  let delta := (stop - start)%Q in
  if (0 <? div)%nat then
    let step := (delta / Qnat div)%Q in
    <[div := stop]> ((fun i => Qnat i * step + start)%Q <$> seq 0 num)
  else (fun i => Qnat i * delta + start)%Q <$> seq 0 num.

Definition thresholds : list Q := linspace 0 0.2 21.

(** *** The evaluation loop *)

(** What [evaluate] does to the world outside it, in order. *)
Inductive event : Type :=
  | EvEval (id : nat)                                  (* net.eval() *)
  | EvTrain (id : nat) (mode : bool)                   (* net.train(mode) *)
  | EvForward (id : nat)                               (* net(x) *)
  | EvVisGt (prefix status : string) (n : Z)           (* vis_kpt(gt_pnts=...) *)
  | EvVisPred (prefix status : string) (n : Z)         (* vis_kpt(pred_pnts=...) *)
  | EvPlot (xs ys : list Q)                            (* plt.ylim, plt.grid, plt.plot *)
  | EvFigure (prefix status : string).                 (* logger.add_figure *)

(** The [training] attribute of every module object, by object identity,
    and the calls made so far.  An object that the store does not hold reads
    as [true], the mode of a module that was never switched. *)
Record world : Type := World {
  training : gmap nat bool;
  trace : list event
}.

(** A network object: its identity, the identities of the modules nested in
    it at any depth, the device of its first parameter (none when it has no
    parameter) and its forward pass, which sees the module's [training]
    attribute and returns a tensor or raises. *)
Record network : Type := Network {
  net_id : nat;
  submodules : list nat;
  device : option string;
  forward : bool -> tensor -> result tensor
}.

(** [net.modules()]: the module itself and every module nested in it. *)
Definition modules (net : network) : list nat := net_id net :: submodules net.

Record batch : Type := Batch {
  inputs : tensor;
  gt_kpts : tensor
}.

Record dataloader : Type := DataLoader {
  batches : list batch;
  mean : list Q;
  std : list Q
}.

(** A computation that changes the world and returns or raises. *)
Definition M (A : Type) : Type := world -> world * result A.

Definition ret {A} (a : A) : M A := fun w => (w, Ok a).

Definition raise {A} (e : exn) : M A := fun w => (w, Raise e).

Definition bindM {A B} (m : M A) (k : A -> M B) : M B :=
  fun w => match m w with
           | (w', Ok a) => k a w'
           | (w', Raise e) => (w', Raise e)
           end.

Definition lift {A} (r : result A) : M A := fun w => (w, r).

Notation "'do' x <- c ; k" := (bindM c (fun x => k))
  (at level 10, x pattern, c at level 100, k at level 200).

Definition emit (e : event) : M unit :=
  fun w => (World (training w) (trace w ++ [e]), Ok tt).

(** [net.training] *)
Definition get_training (net : network) : M bool :=
  fun w => (w, Ok (training w !!! net_id net)).

(** The store with the attribute of each of the objects [ids] set. *)
Definition set_flags (ids : list nat) (mode : bool) (m : gmap nat bool) : gmap nat bool :=
  foldr (fun id m' => <[id := mode]> m') m ids.

(** [nn.Module.train(mode)] sets [self.training] and calls [train(mode)] on
    every child, so it reaches every module nested in the network. *)
Definition set_training (net : network) (mode : bool) : M unit :=
  fun w => (World (set_flags (modules net) mode (training w)) (trace w), Ok tt).

(** [net.eval()] *)
Definition net_eval (net : network) : M unit :=
  do _ <- set_training net false; emit (EvEval (net_id net)).

(** [net.train(mode)] *)
Definition net_train (net : network) (mode : bool) : M unit :=
  do _ <- set_training net mode; emit (EvTrain (net_id net) mode).

(** [net(x)] *)
Definition call (net : network) (x : tensor) : M tensor :=
  do mode <- get_training net;
  do _ <- emit (EvForward (net_id net));
  lift (forward net mode x).

(** A [for] loop over a list that threads the loop variables. *)
Fixpoint for_each {A S} (l : list A) (body : S -> A -> M S) (s : S) : M S :=
  match l with
  | [] => ret s
  | x :: l' => do s' <- body s x; for_each l' body s'
  end.

(** [t[..., :2]] *)
Definition slice_last2 (t : tensor) : result tensor :=
  match rev (shape t) with
  | [] => Raise IndexError
  | k :: rinit =>
      Ok (Tensor (rev rinit ++ [Nat.min k 2])
                 (concat (take 2 <$> chunks (prod_shape rinit) k (data t)))
                 (requires_grad t))
  end.

(** [t[0]] raises on a tensor without axes or without a first slice. *)
Definition first_slice (t : tensor) : result unit :=
  match shape t with
  | [] | O :: _ => Raise IndexError
  | _ => Ok tt
  end.

(** [tot_nkpts[i] += nkpts[i]] *)
Definition add_at (nkpts : list Q) (tot_nkpts : list Q) (i : nat) : result (list Q) :=
  match tot_nkpts !! i, nkpts !! i with
  | Some a, Some b => Ok (<[i := (a + b)%Q]> tot_nkpts)
  | _, _ => Raise IndexError
  end.

(** [tot_nkpts[i] /= tot_pnt], a division of Python floats. *)
Definition div_at (tot_pnt : Q) (tot_nkpts : list Q) (i : nat) : result (list Q) :=
  match tot_nkpts !! i with
  | Some a =>
      if Qeq_bool tot_pnt 0 then Raise ZeroDivisionError
      else Ok (<[i := (a / tot_pnt)%Q]> tot_nkpts)
  | None => Raise IndexError
  end.

(** [for i in range(n): l = f l i] *)
Definition for_range (n : nat) (f : list Q -> nat -> result (list Q)) (l : list Q)
  : result (list Q) :=
  foldl (fun acc i => let* l := acc in f l i) (Ok l) (seq 0 n).

(** The lines 70 and 71: the two assertions on the arguments. *)
Definition check_args (base_net pred_net_1 pred_net_2 : option network) : result unit :=
  match base_net with
  | None => Raise (AssertionError "ERROR: base net is NOT specified!"%string)
  | Some _ =>
      match pred_net_1, pred_net_2 with
      | None, None => Raise (AssertionError "ERROR: prediction nets are all NOT specified!"%string)
      | _, _ => Ok tt
      end
  end.

(** Modelled from the spec: [denormalize] of lib/Mytransforms and [vis_kpt]
    of lib/visualization are not among the sources; the spec has them as a
    renderer that takes the points, an image and a name, forwards an artifact
    to the logging sink and returns nothing that is used.  The calls leave an
    event with the parts of the name. *)
Definition visualize (show_gt : bool) (domain_prefix status : string)
    (idx disp_interval : Z) (b : batch) (kpts : tensor) : M unit :=
  do _ <- lift (first_slice (inputs b));
  do _ <- (if show_gt then
             do _ <- lift (first_slice (gt_kpts b));
             do _ <- lift (slice_last2 (gt_kpts b));
             emit (EvVisGt domain_prefix status (idx / disp_interval)%Z)
           else ret tt);
  do _ <- lift (first_slice kpts);
  emit (EvVisPred domain_prefix status (idx / disp_interval)%Z).

(** The loop variables of the batch loop. *)
Record acc : Type := Acc {
  tot_nkpts : list Q;
  tot_pnt : Q;
  idx : Z
}.

(** The body of the batch loop, lines 102 to 129. *)
Definition batch_body (base_net : network) (pred_nets : list network) (img_size : Q)
    (status : string) (vis : bool) (disp_interval : Z) (show_gt : bool)
    (domain_prefix : string) (a : acc) (b : batch) : M acc :=
  let img_side_len := img_size in
  do feats <- call base_net (inputs b);
  do heats <-
    (match pred_nets with
     | [p0] => call p0 feats
     | p0 :: p1 :: _ =>
         do h0 <- call p0 feats;
         do h1 <- call p1 feats;
         do s <- lift (elementwise Qplus h0 h1);
         ret (pointwise (fun x => x / 2)%Q s)
     | [] => raise IndexError
     end);
  do kpts <- lift (get_kpts heats img_side_len img_side_len);
  let tot_pnt := (tot_pnt a + Qnat (numel kpts) / 2)%Q in
  do gt <- lift (slice_last2 (gt_kpts b));
  do nkpts <- lift (PCK_curve_pnts thresholds kpts gt img_side_len);
  do tot_nkpts <- lift (for_range (length (tot_nkpts a)) (add_at nkpts) (tot_nkpts a));
  do _ <-
    (if vis then
       if (disp_interval =? 0)%Z then raise ZeroDivisionError
       else if (idx a mod disp_interval =? 0)%Z then
         visualize show_gt domain_prefix status (idx a) disp_interval b kpts
       else ret tt
     else ret tt);
  ret (Acc tot_nkpts tot_pnt (idx a + 1)%Z).

Definition opt_list {A} (o : option A) : list A :=
  match o with
  | Some a => [a]
  | None => []
  end.

(** [evaluate] from line 73 on, once the assertions have passed. *)
Definition evaluate_body (base_net : network) (loader : dataloader) (img_size : Q)
    (pred_net_1 pred_net_2 : option network) (status : string) (vis : bool)
    (logger : option unit) (disp_interval : Z) (show_gt is_target : bool) : M (Q * Q) :=
  let pred_nets := opt_list pred_net_1 ++ opt_list pred_net_2 in
  (* device = next(base_net.parameters()).device *)
  do _ <- (match device base_net with
           | Some d => ret d
           | None => raise StopIteration
           end);
  let nets := base_net :: pred_nets in
  do previous_states <-
    for_each nets (fun previous_states net =>
                     do t <- get_training net;
                     do _ <- net_eval net;
                     ret (previous_states ++ [t])) [];
  let tot_nkpts := replicate (length thresholds) 0%Q in
  let domain_prefix := (if is_target then "tgt" else "src")%string in
  do a <- for_each (batches loader)
            (batch_body base_net pred_nets img_size status vis disp_interval show_gt
                        domain_prefix)
            (Acc tot_nkpts 0%Q 0%Z);
  (* recover the state *)
  do _ <- for_each (zip previous_states nets)
            (fun _ sn => net_train (snd sn) (fst sn)) tt;
  do tot_nkpts <- lift (for_range (length (Utils.tot_nkpts a)) (div_at (tot_pnt a))
                                  (Utils.tot_nkpts a));
  (* draw PCK curve *)
  do _ <- emit (EvPlot thresholds tot_nkpts);
  do _ <- (match logger with
           | Some _ => emit (EvFigure domain_prefix status)
           | None => raise AttributeError
           end);
  match tot_nkpts !! 5%nat, last tot_nkpts with
  | Some r1, Some r2 => ret (r1, r2)
  | _, _ => raise IndexError
  end.

(** [evaluate(base_net, loader, img_size, pred_net_1=None, pred_net_2=None,
    status=None, vis=False, logger=None, disp_interval=50, show_gt=True,
    is_target=True)].  An argument that is [None] in Python is [None] here. *)
Definition evaluate (base_net : option network) (loader : dataloader) (img_size : Q)
    (pred_net_1 pred_net_2 : option network) (status : string) (vis : bool)
    (logger : option unit) (disp_interval : Z) (show_gt is_target : bool) : M (Q * Q) :=
  do _ <- lift (check_args base_net pred_net_1 pred_net_2);
  match base_net with
  | Some base =>
      evaluate_body base loader img_size pred_net_1 pred_net_2 status vis logger
                    disp_interval show_gt is_target
  | None => raise (AssertionError "ERROR: base net is NOT specified!"%string)
      (* not reached: the first assertion has raised *)
  end.

(** *** Words used to state what [evaluate] does *)

(** The networks whose mode [evaluate] switches, in the order of [nets]. *)
Definition participants (base_net : network) (pred_net_1 pred_net_2 : option network)
  : list network :=
  base_net :: opt_list pred_net_1 ++ opt_list pred_net_2.

(** What one batch contributes, read off the loop body as a function of the
    batch alone, with every forward pass in inference mode: the predicted
    keypoints and the correct-keypoint count of each threshold of the sweep. *)
Definition batch_counts (base_net : network) (pred_nets : list network) (img_size : Q)
    (b : batch) : result (tensor * list Q) :=
  let* feats := forward base_net false (inputs b) in
  let* heats :=
    match pred_nets with
    | [p0] => forward p0 false feats
    | p0 :: p1 :: _ =>
        let* h0 := forward p0 false feats in
        let* h1 := forward p1 false feats in
        let* s := elementwise Qplus h0 h1 in
        Ok (pointwise (fun x => x / 2)%Q s)
    | [] => Raise IndexError
    end in
  let* kpts := get_kpts heats img_size img_size in
  let* gt := slice_last2 (gt_kpts b) in
  let* nkpts := PCK_curve_pnts thresholds kpts gt img_size in
  Ok (kpts, nkpts).

(** The count of one batch at the threshold of index [i]. *)
Definition count_at (i : nat) (r : tensor * list Q) : Q := default 0%Q (snd r !! i).

(** The number of keypoints of one batch: [kpts.numel() / 2]. *)
Definition keypoints_of (r : tensor * list Q) : Q := (Qnat (numel (fst r)) / 2)%Q.

Definition is_train (e : event) : bool :=
  match e with
  | EvTrain _ _ => true
  | _ => false
  end.

(** A computation that leaves every [training] attribute and adds no
    [net.train] call to the trace. *)
Definition quiet {A} (m : M A) : Prop :=
  forall w w' r, m w = (w', r) ->
    training w' = training w /\
    filter (fun e => is_train e = true) (trace w') = filter (fun e => is_train e = true) (trace w).

(** The store after [net.eval()] on each network of a list, and the values
    of [net.training] read on the way. *)
Fixpoint eval_all (m : gmap nat bool) (nets : list network) : gmap nat bool :=
  match nets with
  | [] => m
  | net :: nets' => eval_all (set_flags (modules net) false m) nets'
  end.

Fixpoint snapshot (m : gmap nat bool) (nets : list network) : list bool :=
  match nets with
  | [] => []
  | net :: nets' => (m !!! net_id net) :: snapshot (set_flags (modules net) false m) nets'
  end.

Fixpoint restore_all (m : gmap nat bool) (l : list (bool * network)) : gmap nat bool :=
  match l with
  | [] => m
  | sn :: l' => restore_all (set_flags (modules (snd sn)) (fst sn) m) l'
  end.

End Utils.

Import Disc Utils.

(** * Further words for the outcome of [evaluate] *)

(** The world in which the batch loop of [evaluate] starts: every
    participant has been switched to inference mode. *)
Definition loop_start (base_net : network) (pred_net_1 pred_net_2 : option network)
    (w : world) : world :=
  let nets := participants base_net pred_net_1 pred_net_2 in
  World (eval_all (training w) nets)
        (trace w ++ ((fun net => EvEval (net_id net)) <$> nets)).

(** The batch loop of [evaluate], run from [loop_start]. *)
Definition batch_loop (base_net : network) (loader : dataloader) (img_size : Q)
    (pred_net_1 pred_net_2 : option network) (status : string) (vis : bool)
    (disp_interval : Z) (show_gt is_target : bool) (w : world) : world * result acc :=
  for_each (batches loader)
    (batch_body base_net (opt_list pred_net_1 ++ opt_list pred_net_2) img_size status vis
                disp_interval show_gt (if is_target then "tgt" else "src")%string)
    (Acc (replicate (length thresholds) 0%Q) 0%Q 0%Z)
    (loop_start base_net pred_net_1 pred_net_2 w).

(** What [evaluate] returns once the batch loop has left the accumulators
    [a]: the lines 135 to 145, without their drawing. *)
Definition scores (logger : option unit) (a : acc) : result (Q * Q) :=
  let* tot := for_range (length (tot_nkpts a)) (div_at (tot_pnt a)) (tot_nkpts a) in
  match logger with
  | None => Raise AttributeError
  | Some _ =>
      match tot !! 5%nat, last tot with
      | Some r1, Some r2 => Ok (r1, r2)
      | _, _ => Raise IndexError
      end
  end.

(** The lines 135 to 145 of [evaluate]: the division of the accumulators,
    the drawing of the curve and the pair returned. *)
Definition finish (logger : option unit) (domain_prefix status : string) (a : acc)
  : M (Q * Q) :=
  do tot_nkpts <- lift (for_range (length (Utils.tot_nkpts a)) (div_at (tot_pnt a))
                                  (Utils.tot_nkpts a));
  do _ <- emit (EvPlot thresholds tot_nkpts);
  do _ <- (match logger with
           | Some _ => emit (EvFigure domain_prefix status)
           | None => raise AttributeError
           end);
  match tot_nkpts !! 5%nat, last tot_nkpts with
  | Some r1, Some r2 => ret (r1, r2)
  | _, _ => raise IndexError
  end.

(** The world after the loop that recovers the state, run in the world [w3]
    that the batch loop left, for a call made in the world [w]. *)
Definition released (base_net : network) (pred_net_1 pred_net_2 : option network)
    (w w3 : world) : world :=
  let nets := participants base_net pred_net_1 pred_net_2 in
  World (restore_all (training w3) (zip (snapshot (training w) nets) nets))
        (trace w3 ++ ((fun sn => EvTrain (net_id (snd sn)) (fst sn))
                        <$> zip (snapshot (training w) nets) nets)).

(** Every network of a list is in inference mode.  Inside [evaluate] the
    modules nested in it are so too, [net.eval()] having reached them. *)
Definition inference (nets : list network) (w : world) : Prop :=
  forall net, net ∈ nets -> training w !!! net_id net = false.

(** A computation whose outcome is the same in every world where the
    networks of [nets] are in inference mode. *)
Definition steady {A} (nets : list network) (m : M A) : Prop :=
  forall w w', inference nets w -> inference nets w' -> snd (m w) = snd (m w').

(** * The kernel of lib/utils.py

    [gaussian_kernel] calls [np.exp], which no rational model computes: its
    entries are real numbers here, as [sqrt_lt_real] reads the square root.
    The division by [sigma = 0], which numpy answers with [inf] and [nan],
    is outside the model: the facts below assume [sigma <> 0]. *)

(** [np.mgrid[0:n]] along one axis: the whole numbers below [n], none when
    [n] is not positive. *)
Definition mgrid_axis (n : Z) : list R := INR <$> seq 0 (Z.to_nat n).

(** The exponent of one entry, [-D2 / 2.0 / sigma / sigma]. *)
Definition kernel_exponent (center_x center_y sigma gridx gridy : R) : R :=
  (- ((gridx - center_x) ^ 2 + (gridy - center_y) ^ 2) / 2 / sigma / sigma)%R.

(** [gaussian_kernel]: rows run over [gridy], columns over [gridx]. *)
Definition gaussian_kernel (size_w size_h : Z) (center_x center_y sigma : R)
  : list (list R) :=
  (fun gridy => (fun gridx => exp (kernel_exponent center_x center_y sigma gridx gridy))
                  <$> mgrid_axis size_w) <$> mgrid_axis size_h.

(** * Concrete inputs *)

Module Examples.

(** Two vectors of two elements: one pair closer than [beta = 1], one not. *)
Definition loss_input : tensor := Tensor [2%nat] [1; 3]%Q true.
Definition loss_target : tensor := Tensor [2%nat] [1.5; 1]%Q false.

(** A tensor of shape (0,): no element. *)
Definition no_elements : tensor := Tensor [0%nat] [] false.

(** A batch of no images with two features each, a backbone and a head that
    return their input. *)
Definition empty_batch : tensor := Tensor [0%nat; 2%nat] [] false.
Definition identity_net (x : tensor) : result tensor := Ok x.

(** Batches of one and of two rows of two features, a backbone whose
    features track gradients, and two heads. *)
Definition src_batch : tensor := Tensor [1%nat; 2%nat] [1; 2]%Q false.
Definition tgt_batch : tensor := Tensor [2%nat; 2%nat] [3; 4; 5; 6]%Q false.
Definition tracking_net (x : tensor) : result tensor :=
  Ok (Tensor (shape x) (data x) true).
Definition doubling_head (x : tensor) : result tensor :=
  Ok (pointwise (fun v => 2 * v)%Q x).

(** Two keypoints of one image, predicted and true: the first is one pixel
    off, the second exact. *)
Definition pred_kpts : tensor := Tensor [1%nat; 2%nat; 2%nat] [4; 2; 0; 0]%Q false.
Definition true_kpts : tensor := Tensor [1%nat; 2%nat; 2%nat] [4; 3; 0; 0]%Q false.

(** One image, one channel of 4 by 4 whose largest value is at row 1,
    column 2. *)
Definition heatmap : tensor :=
  Tensor [1%nat; 1%nat; 4%nat; 4%nat]
         [0; 0; 0; 0;
          0; 0; 1; 0;
          0; 0; 0.5; 0;
          0; 0; 0; 0]%Q false.

(** A backbone that returns its input, a head that accepts only batches of
    four axes, both in training mode before the call. *)
Definition backbone : network :=
  Network 0 [] (Some "cpu"%string) (fun _ x => Ok x).
Definition strict_head : network :=
  Network 1 [] (Some "cpu"%string)
          (fun _ x => match shape x with
                      | [_; _; _; _] => Ok x
                      | _ => Raise RuntimeError
                      end).
Definition world0 : world :=
  World (<[0%nat := true]> (<[1%nat := true]> ∅)) [].

(** The backbone in training mode and the head in inference mode. *)
Definition mixed_world : world :=
  World (<[0%nat := true]> (<[1%nat := false]> ∅)) [].

(** A backbone that holds the head above as one of its submodules. *)
Definition parent_backbone : network :=
  Network 0 [1%nat] (Some "cpu"%string) (fun _ x => Ok x).

(** A loader of one batch: the heatmap above as input, and the true keypoint
    (4, 2) with a visibility flag. *)
Definition loader : dataloader :=
  DataLoader [Batch heatmap (Tensor [1%nat; 1%nat; 3%nat] [4; 2; 1]%Q false)] [] [].

(** A loader whose batch has two axes only. *)
Definition bad_loader : dataloader :=
  DataLoader [Batch (Tensor [2%nat; 2%nat] [0; 1; 2; 3]%Q false)
                    (Tensor [1%nat; 1%nat; 3%nat] [4; 2; 1]%Q false)] [] [].

End Examples.

(** Further inputs, for the further facts below. *)

Module MoreExamples.

(** A batch of no image with two keypoints each: shape (0, 2, 2). *)
Definition no_keypoints : tensor := Tensor [0%nat; 2%nat; 2%nat] [] false.

(** One image, one channel whose map has no row. *)
Definition empty_map : tensor := Tensor [1%nat; 1%nat; 0%nat; 4%nat] [] false.

(** A backbone without a parameter. *)
Definition bare_net : network := Network 2 [] None (fun _ x => Ok x).

(** A loader without batches. *)
Definition empty_loader : dataloader := DataLoader [] [] [].

End MoreExamples.

(** * Facts about lib/model/disc.py *)

Section SmoothL1.

Lemma Qltb_lt (a b : Q) : Qltb a b = true <-> (a < b)%Q.
Proof.
  unfold Qltb. rewrite negb_true_iff. split.
  - intros H. apply Qnot_le_lt. intros Hle. apply Qle_bool_iff in Hle. congruence.
  - intros H. destruct (Qle_bool b a) eqn:E; [|done].
    apply Qle_bool_iff in E. exfalso. eapply Qlt_not_le; eauto.
Qed.

Lemma Qltb_ge (a b : Q) : Qltb a b = false <-> (b <= a)%Q.
Proof.
  unfold Qltb. rewrite negb_false_iff. apply Qle_bool_iff.
Qed.

Lemma where_data_fmap (c : Q -> bool) (f g : Q -> Q) (l : list Q) :
  where_data (c <$> l) (f <$> l) (g <$> l) = (fun x => if c x then f x else g x) <$> l.
Proof. induction l as [|x l IH]; csimpl; [done|]. by rewrite IH. Qed.

Lemma fmap_zip_with_minus (h : Q -> Q) (a b : list Q) :
  h <$> (Qabs <$> zip_with Qminus a b) = zip_with (fun x y => h (Qabs (x - y))) a b.
Proof.
  revert b. induction a as [|x a IH]; intros [|y b]; csimpl; try done.
  by rewrite IH.
Qed.

(** The tensor program of [smooth_l1_loss] yields, on operands of one shape,
    the buffer of the contributions of the pairs of elements. *)
Lemma smooth_l1_loss_data (input target : tensor) (beta : Q) (size_average : bool) :
  shape input = shape target ->
  smooth_l1_loss input target beta size_average =
  let loss := Tensor (shape input)
                     (zip_with (contribution beta) (data input) (data target))
                     (requires_grad input || requires_grad target) in
  Ok (if size_average then tmean loss else tsum loss).
Proof.
  intros Hs. unfold smooth_l1_loss, elementwise, where_.
  rewrite decide_True by done. cbn [bind pointwise shape data requires_grad].
  rewrite decide_True by done. unfold lt_scalar. cbn [data shape requires_grad].
  rewrite where_data_fmap, fmap_zip_with_minus.
  rewrite orb_diag. unfold contribution.
  by destruct size_average.
Qed.

Lemma Qsum_nonneg (l : list Q) : Forall (fun x => (0 <= x)%Q) l -> (0 <= Qsum l)%Q.
Proof.
  induction 1 as [|x l Hx _ IH]; simpl; [apply Qle_refl|].
  lra.
Qed.

Lemma contribution_nonneg (beta x y : Q) : (0 < beta)%Q -> (0 <= contribution beta x y)%Q.
Proof.
  intros Hb. unfold contribution. cbv zeta.
  pose proof (Qabs_nonneg (x - y)) as Hn.
  destruct (Qltb (Qabs (x - y)) beta) eqn:E.
  - apply Qle_shift_div_l; [done|]. simpl. nra.
  - apply Qltb_ge in E. lra.
Qed.

Lemma Forall_zip_with_contribution (beta : Q) (a b : list Q) :
  (0 < beta)%Q -> Forall (fun x => (0 <= x)%Q) (zip_with (contribution beta) a b).
Proof.
  intros Hb. revert b. induction a as [|x a IH]; intros [|y b]; csimpl; try constructor.
  - by apply contribution_nonneg.
  - apply IH.
Qed.

Lemma Qnat_pos (n : nat) : n <> 0%nat -> (0 < Qnat n)%Q.
Proof.
  intros Hn. unfold Qnat. replace 0%Q with (inject_Z 0) by done.
  rewrite <- Zlt_Qlt. lia.
Qed.

(** C4. On tensors of one shape and for [beta > 0], [smooth_l1_loss]
    computes for each pair of elements [n = |input - target|], takes
    [0.5*n^2/beta] where [n < beta] and [n - 0.5*beta] elsewhere, and returns
    the mean of these contributions when [size_average] is true and their sum
    otherwise; the mean of no contribution is not a number. *)
Theorem smooth_l1_loss_elementwise (input target : tensor) (beta : Q) (size_average : bool) :
  shape input = shape target ->
  tensor_wf input -> tensor_wf target ->
  (0 < beta)%Q ->
  exists contributions : list Q,
    length contributions = numel input /\
    (forall i x y, data input !! i = Some x -> data target !! i = Some y ->
       exists c, contributions !! i = Some c /\
         ((Qabs (x - y) < beta)%Q -> c = (0.5 * Qabs (x - y) ^ 2 / beta)%Q) /\
         ((beta <= Qabs (x - y))%Q -> c = (Qabs (x - y) - 0.5 * beta)%Q)) /\
    smooth_l1_loss input target beta size_average =
    Ok (if size_average then
          match contributions with
          | [] => NaN
          | _ => Num (fold_right Qplus 0%Q contributions
                      / inject_Z (Z.of_nat (length contributions)))
          end
        else Num (fold_right Qplus 0%Q contributions)).
Proof.
  intros Hs Hwi Hwt Hb.
  set (cs := zip_with (contribution beta) (data input) (data target)).
  assert (Hlen : length cs = numel input).
  { unfold cs. rewrite length_zip_with. unfold tensor_wf, numel in *.
    rewrite Hwi, Hwt, Hs. lia. }
  exists cs. split; [done|]. split.
  - intros i x y Hx Hy. exists (contribution beta x y). split.
    { unfold cs. by rewrite lookup_zip_with, Hx, Hy. }
    unfold contribution. cbv zeta.
    destruct (Qltb (Qabs (x - y)) beta) eqn:E.
    + apply Qltb_lt in E. split; [done|]. intros Hge. exfalso. lra.
    + apply Qltb_ge in E. split; [|done]. intros Hlt. exfalso. lra.
  - rewrite smooth_l1_loss_data by done. cbv zeta. fold cs.
    destruct size_average; [|done].
    unfold tmean, numel. cbn [shape data]. fold (numel input).
    rewrite <- Hlen. destruct cs; done.
Qed.

(** C10, amended.  On tensors of one shape and for [beta > 0] the loss is a
    number that is not negative: under the sum for every such pair, under the
    mean when the tensors have an element. *)
Theorem smooth_l1_loss_nonneg (input target : tensor) (beta : Q) (size_average : bool) :
  shape input = shape target ->
  (0 < beta)%Q ->
  (size_average = true -> numel input <> 0%nat) ->
  exists r, smooth_l1_loss input target beta size_average = Ok r /\ scalar_nonneg r.
Proof.
  intros Hs Hb Hne. rewrite smooth_l1_loss_data by done. cbv zeta.
  eexists; split; [done|].
  pose proof (Qsum_nonneg _ (Forall_zip_with_contribution beta (data input) (data target) Hb)) as Hsum.
  destruct size_average.
  - unfold tmean, numel. cbn [shape data]. fold (numel input).
    destruct (numel input =? 0)%nat eqn:E.
    + apply Nat.eqb_eq in E. by destruct Hne.
    + cbn. apply Nat.eqb_neq in E. apply Qle_shift_div_l; [by apply Qnat_pos|]. lra.
  - exact Hsum.
Qed.

End SmoothL1.

Section Discrepancy.

Context {X : Type}.
Variables (source_data target_data : X).
Variable base_net : X -> result tensor.

Lemma cat0_batches (a b : tensor) (na nb : nat) (rest : list nat) :
  shape a = na :: rest -> shape b = nb :: rest ->
  cat0 a b =
  Ok (Tensor ((na + nb)%nat :: rest) (data a ++ data b) (requires_grad a || requires_grad b)).
Proof.
  intros Ha Hb. unfold cat0. rewrite Ha, Hb.
  destruct (decide (na :: rest = [0%nat])) as [E|_].
  { by inversion E. }
  destruct (decide (nb :: rest = [0%nat])) as [E|_].
  { inversion E. by rewrite Nat.add_0_r. }
  by rewrite decide_True.
Qed.

(** C5. When the backbone, the heads and the distance function return,
    and the two feature batches agree outside the batch axis, [discrepancy]
    returns a pair: the feature batches appended along the batch axis and
    detached from gradient tracking, and the absolute value of the difference
    of the distance of the heads on the source features and the distance of
    the heads on the target features, which is not a number when one of the
    distances is not. *)
Theorem discrepancy_pair (h1 h2 : tensor -> result tensor)
    (criterion : tensor -> tensor -> result scalar)
    (source_feat target_feat src_h1 src_h2 tgt_h1 tgt_h2 : tensor)
    (src_disc tgt_disc : scalar) (ns nt : nat) (rest : list nat) :
  base_net source_data = Ok source_feat ->
  base_net target_data = Ok target_feat ->
  shape source_feat = ns :: rest ->
  shape target_feat = nt :: rest ->
  h1 source_feat = Ok src_h1 -> h2 source_feat = Ok src_h2 ->
  h1 target_feat = Ok tgt_h1 -> h2 target_feat = Ok tgt_h2 ->
  criterion src_h1 src_h2 = Ok src_disc ->
  criterion tgt_h1 tgt_h2 = Ok tgt_disc ->
  exists union_feat,
    discrepancy source_data target_data base_net h1 h2 criterion =
      Ok (union_feat, match src_disc, tgt_disc with
                      | Num a, Num b => Num (Qabs (a - b))
                      | _, _ => NaN
                      end) /\
    shape union_feat = (ns + nt)%nat :: rest /\
    data union_feat = data source_feat ++ data target_feat /\
    requires_grad union_feat = false.
Proof.
  intros Hs Ht Hss Hst H1s H2s H1t H2t Hcs Hct.
  unfold discrepancy. rewrite Hs, Ht. cbn [bind].
  rewrite (cat0_batches _ _ ns nt rest) by done. cbn [bind].
  rewrite H1s, H2s, H1t, H2t. cbn [bind]. rewrite Hcs, Hct. cbn [bind].
  eexists. split; [by destruct src_disc, tgt_disc|]. by cbn.
Qed.

Lemma contribution_same (x : Q) : (contribution 1 x x == 0)%Q.
Proof.
  unfold contribution. cbv zeta.
  assert (Hn : (Qabs (x - x) == 0)%Q).
  { assert (Hx : (x - x == 0)%Q) by ring. rewrite Hx. reflexivity. }
  assert (Hlt : Qltb (Qabs (x - x)) 1 = true).
  { apply Qltb_lt. rewrite Hn. reflexivity. }
  rewrite Hlt, Hn. reflexivity.
Qed.

Lemma Qsum_contribution_same (l : list Q) : (Qsum (zip_with (contribution 1) l l) == 0)%Q.
Proof.
  induction l as [|x l IH]; csimpl; [reflexivity|].
  rewrite contribution_same, IH. reflexivity.
Qed.

Lemma default_criterion_same (a : tensor) :
  numel a <> 0%nat ->
  exists q, default_criterion a a = Ok (Num q) /\ (q == 0)%Q.
Proof.
  intros Hn. unfold default_criterion. rewrite smooth_l1_loss_data by done.
  cbv zeta. unfold tmean, numel. cbn [shape data]. fold (numel a).
  apply Nat.eqb_neq in Hn. rewrite Hn.
  eexists. split; [reflexivity|].
  rewrite Qsum_contribution_same. unfold Qdiv. ring.
Qed.

Lemma default_criterion_empty (a : tensor) :
  numel a = 0%nat -> default_criterion a a = Ok NaN.
Proof.
  intros Hn. unfold default_criterion. rewrite smooth_l1_loss_data by done.
  cbv zeta. unfold tmean, numel. cbn [shape data]. fold (numel a).
  by rewrite Hn.
Qed.

(** What [discrepancy] returns with one function for both heads, given what
    the distance function returns on each output of the head paired with
    itself. *)
Lemma discrepancy_same (h : tensor -> result tensor)
    (criterion : tensor -> tensor -> result scalar)
    (source_feat target_feat union src_h tgt_h : tensor) (src_disc tgt_disc : scalar) :
  base_net source_data = Ok source_feat ->
  base_net target_data = Ok target_feat ->
  cat0 source_feat target_feat = Ok union ->
  h source_feat = Ok src_h -> h target_feat = Ok tgt_h ->
  criterion src_h src_h = Ok src_disc -> criterion tgt_h tgt_h = Ok tgt_disc ->
  discrepancy source_data target_data base_net h h criterion =
    Ok (detach union, sabs (ssub src_disc tgt_disc)).
Proof.
  intros Hs Ht Hcat Hhs Hht Hcs Hct.
  unfold discrepancy. rewrite Hs, Ht. cbn [bind]. rewrite Hcat. cbn [bind].
  rewrite Hhs, Hht. cbn [bind]. by rewrite Hcs, Hct.
Qed.

(** C8, amended.  With one function for both heads, whenever the backbone
    and the head return and the feature batches can be appended: if the
    distance function returns 0 on each output of the head paired with
    itself, the scalar that [discrepancy] returns is 0; the default distance
    function does so when both outputs have an element, and when one of them
    has none the scalar returned is not a number. *)
Theorem discrepancy_same_head (h : tensor -> result tensor)
    (criterion : tensor -> tensor -> result scalar)
    (source_feat target_feat union src_h tgt_h : tensor) :
  base_net source_data = Ok source_feat ->
  base_net target_data = Ok target_feat ->
  cat0 source_feat target_feat = Ok union ->
  h source_feat = Ok src_h -> h target_feat = Ok tgt_h ->
  (forall a b : Q,
     criterion src_h src_h = Ok (Num a) -> criterion tgt_h tgt_h = Ok (Num b) ->
     (a == 0)%Q -> (b == 0)%Q ->
     exists q, discrepancy source_data target_data base_net h h criterion =
                 Ok (detach union, Num q) /\ (q == 0)%Q) /\
  (numel src_h <> 0%nat -> numel tgt_h <> 0%nat ->
   exists q, discrepancy source_data target_data base_net h h default_criterion =
               Ok (detach union, Num q) /\ (q == 0)%Q) /\
  (numel src_h = 0%nat \/ numel tgt_h = 0%nat ->
   discrepancy source_data target_data base_net h h default_criterion =
     Ok (detach union, NaN)).
Proof.
  intros Hs Ht Hcat Hhs Hht.
  assert (Hzero : forall criterion (a b : Q),
            criterion src_h src_h = Ok (Num a) -> criterion tgt_h tgt_h = Ok (Num b) ->
            (a == 0)%Q -> (b == 0)%Q ->
            exists q, discrepancy source_data target_data base_net h h criterion =
                        Ok (detach union, Num q) /\ (q == 0)%Q).
  { intros crit a b Ha Hb Ha0 Hb0.
    rewrite (discrepancy_same h crit _ _ _ _ _ _ _ Hs Ht Hcat Hhs Hht Ha Hb).
    eexists. split; [reflexivity|]. rewrite Ha0, Hb0. reflexivity. }
  split; [apply Hzero|]. split.
  - intros Hns Hnt.
    destruct (default_criterion_same src_h Hns) as (qs & Hqs & Hzs).
    destruct (default_criterion_same tgt_h Hnt) as (qt & Hqt & Hzt).
    by apply (Hzero default_criterion qs qt).
  - intros Hempty.
    assert (Hdef : forall t, exists d, default_criterion t t = Ok d /\
                                       (numel t = 0%nat -> d = NaN)).
    { intros t. destruct (decide (numel t = 0%nat)) as [E|E].
      - exists NaN. by rewrite default_criterion_empty.
      - destruct (default_criterion_same t E) as (q & Hq & _). exists (Num q). done. }
    destruct (Hdef src_h) as (ds & Hds & Hsn). destruct (Hdef tgt_h) as (dt & Hdt & Htn).
    rewrite (discrepancy_same h default_criterion _ _ _ _ _ _ _ Hs Ht Hcat Hhs Hht Hds Hdt).
    destruct Hempty as [E|E].
    + by rewrite (Hsn E).
    + rewrite (Htn E). by destruct ds.
Qed.

End Discrepancy.

(** C4, at the two vectors [1; 3] and [1.5; 1] with [beta = 1]: the mean of
    the contributions 0.125 and 1.5, which is 13/16. *)
Lemma smooth_l1_loss_elementwise_witness :
  exists q, smooth_l1_loss Examples.loss_input Examples.loss_target 1 true = Ok (Num q) /\
            (q == 13 # 16)%Q.
Proof.
  destruct (smooth_l1_loss_elementwise Examples.loss_input Examples.loss_target 1 true
              eq_refl eq_refl eq_refl eq_refl) as (cs & Hlen & Hc & Hloss).
  destruct cs as [|c0 [|c1 [|c2 cs]]]; try discriminate Hlen.
  destruct (Hc 0%nat 1%Q 1.5%Q eq_refl eq_refl) as (c & Hc0 & Hlt & _).
  destruct (Hc 1%nat 3%Q 1%Q eq_refl eq_refl) as (c' & Hc1 & _ & Hge).
  injection Hc0 as <-. injection Hc1 as <-.
  eexists. split; [exact Hloss|].
  rewrite (Hlt eq_refl), Hge by discriminate. reflexivity.
Defined.

(** C10, as stated, fails on tensors without elements: their mean loss is
    not a number. *)
Lemma smooth_l1_loss_mean_of_nothing :
  shape Examples.no_elements = shape Examples.no_elements /\
  (0 < 1)%Q /\
  smooth_l1_loss Examples.no_elements Examples.no_elements 1 true = Ok NaN /\
  ~ scalar_nonneg NaN.
Proof.
  split; [reflexivity|]. split; [reflexivity|]. split; [reflexivity|].
  intros H. exact H.
Qed.

Lemma smooth_l1_loss_nonneg_witness :
  exists r, smooth_l1_loss Examples.loss_input Examples.loss_target 1 true = Ok r /\
            scalar_nonneg r.
Proof.
  apply (smooth_l1_loss_nonneg Examples.loss_input Examples.loss_target 1 true).
  - reflexivity.
  - reflexivity.
  - intros _. vm_compute. lia.
Defined.

Lemma discrepancy_pair_witness :
  exists union_feat,
    discrepancy Examples.src_batch Examples.tgt_batch Examples.tracking_net
                Examples.identity_net Examples.doubling_head default_criterion =
      Ok (union_feat, Num (Qabs ((200 # 200) - (160000 # 40000)))) /\
    (Qabs ((200 # 200) - (160000 # 40000)) == 3)%Q /\
    shape union_feat = [3%nat; 2%nat] /\
    data union_feat = [1; 2; 3; 4; 5; 6]%Q /\
    requires_grad union_feat = false.
Proof.
  cut (exists union_feat,
    discrepancy Examples.src_batch Examples.tgt_batch Examples.tracking_net
                Examples.identity_net Examples.doubling_head default_criterion =
      Ok (union_feat, Num (Qabs ((200 # 200) - (160000 # 40000)))) /\
    shape union_feat = [3%nat; 2%nat] /\
    data union_feat = [1; 2; 3; 4; 5; 6]%Q /\
    requires_grad union_feat = false).
  { intros (u & H1 & H2). exists u. split; [exact H1|]. split; [reflexivity|exact H2]. }
  apply (discrepancy_pair Examples.src_batch Examples.tgt_batch Examples.tracking_net
           Examples.identity_net Examples.doubling_head default_criterion
           (Tensor [1%nat; 2%nat] [1; 2]%Q true)
           (Tensor [2%nat; 2%nat] [3; 4; 5; 6]%Q true)
           (Tensor [1%nat; 2%nat] [1; 2]%Q true)
           (Tensor [1%nat; 2%nat] [2 * 1; 2 * 2]%Q true)
           (Tensor [2%nat; 2%nat] [3; 4; 5; 6]%Q true)
           (Tensor [2%nat; 2%nat] [2 * 3; 2 * 4; 2 * 5; 2 * 6]%Q true)
           (Num (200 # 200)) (Num (160000 # 40000)) 1%nat 2%nat [2%nat]);
    reflexivity.
Defined.

(** C8, as stated, fails on a batch without images: both distances are the
    mean of nothing, and the scalar returned is not a number. *)
Lemma discrepancy_same_head_no_images :
  discrepancy Examples.empty_batch Examples.empty_batch Examples.identity_net
              Examples.identity_net Examples.identity_net default_criterion =
    Ok (Examples.empty_batch, NaN) /\
  ~ scalar_eq NaN 0.
Proof.
  split; [reflexivity|]. intros H. exact H.
Qed.

Lemma discrepancy_same_head_witness :
  exists q,
    discrepancy Examples.src_batch Examples.tgt_batch Examples.tracking_net
                Examples.doubling_head Examples.doubling_head default_criterion =
      Ok (detach (Tensor [3%nat; 2%nat] [1; 2; 3; 4; 5; 6]%Q true), Num q) /\
    (q == 0)%Q.
Proof.
  apply (discrepancy_same_head Examples.src_batch Examples.tgt_batch Examples.tracking_net
           Examples.doubling_head default_criterion
           (Tensor [1%nat; 2%nat] [1; 2]%Q true)
           (Tensor [2%nat; 2%nat] [3; 4; 5; 6]%Q true)
           (Tensor [3%nat; 2%nat] [1; 2; 3; 4; 5; 6]%Q true)
           (Tensor [1%nat; 2%nat] [2 * 1; 2 * 2]%Q true)
           (Tensor [2%nat; 2%nat] [2 * 3; 2 * 4; 2 * 5; 2 * 6]%Q true));
    try reflexivity; vm_compute; lia.
Defined.

(** * Facts about lib/utils.py: the metric *)

Section Metric.

(** The comparison [sqrt_lt] is the comparison of the real square root. *)
Lemma sqrt_lt_real (x t : Q) :
  (0 <= x)%Q -> sqrt_lt x t = true <-> (sqrt (Q2R x) < Q2R t)%R.
Proof.
  intros Hx. unfold sqrt_lt. rewrite andb_true_iff, !Qltb_lt.
  assert (Hx' : (0 <= Q2R x)%R) by (replace 0%R with (Q2R 0) by lra; by apply Qle_Rle).
  split.
  - intros [Ht Hxt]. apply Qlt_Rlt in Ht, Hxt. rewrite Q2R_mult in Hxt.
    replace (Q2R 0) with 0%R in Ht by lra.
    rewrite <- (sqrt_square (Q2R t)) by lra.
    by apply sqrt_lt_1; [|nra|].
  - intros H. pose proof (sqrt_pos (Q2R x)) as Hp.
    assert (Ht : (0 < Q2R t)%R) by lra. split.
    + apply Rlt_Qlt. replace (Q2R 0) with 0%R by lra. done.
    + apply Rlt_Qlt. rewrite Q2R_mult. rewrite <- (sqrt_sqrt (Q2R x)) by done. nra.
Qed.

Lemma sqrt_lt_mono (d a1 a2 L : Q) :
  (0 <= a1)%Q -> (a1 <= a2)%Q ->
  sqrt_lt d (a1 * L) = true -> sqrt_lt d (a2 * L) = true.
Proof.
  unfold sqrt_lt. rewrite !andb_true_iff, !Qltb_lt. intros H0 H12 [Hp Hd].
  assert (HL : (0 < L)%Q).
  { destruct (Qlt_le_dec 0 L) as [|HL]; [done|]. exfalso. nra. }
  assert (Ha : (a1 * L <= a2 * L)%Q) by nra.
  split; [lra|].
  assert ((a1 * L) * (a1 * L) <= (a2 * L) * (a2 * L))%Q by nra.
  lra.
Qed.

Lemma count_true_mono {A} (f g : A -> bool) (l : list A) :
  (forall d, f d = true -> g d = true) ->
  (count_true (f <$> l) <= count_true (g <$> l))%nat.
Proof.
  intros Hfg. unfold count_true. induction l as [|x l IH]; csimpl; [done|].
  rewrite !filter_cons. specialize (Hfg x).
  destruct (f x), (g x); repeat case_decide; simpl; try done; try lia.
Qed.

Lemma Qnat_le (a b : nat) : (a <= b)%nat -> (Qnat a <= Qnat b)%Q.
Proof. intros H. unfold Qnat. rewrite <- Zle_Qle. lia. Qed.

Lemma thresholds_value (i : nat) (t : Q) :
  thresholds !! i = Some t -> (i < 21)%nat /\ (t == Qnat i / 100)%Q.
Proof.
  intros H.
  do 21 (destruct i as [|i]; [inversion H; split; [lia|reflexivity]|]).
  discriminate H.
Qed.

Lemma thresholds_nonneg (t : Q) : t ∈ thresholds -> (0 <= t)%Q.
Proof.
  intros Hin. apply list_elem_of_lookup in Hin as [i Hi].
  destruct (thresholds_value i t Hi) as [_ ->].
  apply Qle_shift_div_l; [reflexivity|].
  assert (0 <= Qnat i)%Q by (apply (Qnat_le 0); lia). lra.
Qed.

Lemma thresholds_sorted (i j : nat) (ti tj : Q) :
  (i <= j)%nat -> thresholds !! i = Some ti -> thresholds !! j = Some tj -> (ti <= tj)%Q.
Proof.
  intros Hij Hi Hj.
  destruct (thresholds_value i ti Hi) as [_ ->].
  destruct (thresholds_value j tj Hj) as [_ ->].
  apply Qnat_le in Hij. unfold Qdiv. 
  apply Qmult_le_compat_r; [done|]. discriminate.
Qed.

Lemma mapM_lookup {A B} (f : A -> result B) (l : list A) (ys : list B) (i : nat) (y : B) :
  mapM f l = Ok ys -> ys !! i = Some y -> exists x, l !! i = Some x /\ f x = Ok y.
Proof.
  revert ys i. induction l as [|x l IH]; intros ys i; simpl.
  - intros [= <-]. done.
  - destruct (f x) as [y0|] eqn:Hx; [|done]. simpl.
    destruct (mapM f l) as [ys0|] eqn:Hl; [|done]. simpl. intros [= <-].
    destruct i as [|i]; simpl.
    + intros [= <-]. eauto.
    + intros Hy. by apply (IH ys0).
Qed.

Lemma PCK_step (pred gt : tensor) (L a1 a2 : Q) (r1 : Q * Q) :
  (0 <= a1)%Q -> (a1 <= a2)%Q ->
  PCK pred gt L a1 = Ok r1 ->
  exists r2, PCK pred gt L a2 = Ok r2 /\ (snd r1 <= snd r2)%Q.
Proof.
  intros H0 H12. unfold PCK.
  destruct (elementwise Qminus pred gt) as [d|]; [|done]. cbn [bind].
  destruct (sum_dim2 _) as [dis|]; [|done]. cbn [bind].
  destruct (numel dis =? 0)%nat; [done|]. intros [= <-].
  eexists. split; [reflexivity|]. cbn [snd].
  apply Qnat_le, count_true_mono. intros x. apply sqrt_lt_mono; done.
Qed.

Lemma batch_counts_curve base pred_nets img b r :
  batch_counts base pred_nets img b = Ok r ->
  exists gt, PCK_curve_pnts thresholds (fst r) gt img = Ok (snd r).
Proof.
  unfold batch_counts. intros H.
  destruct (forward base false (inputs b)); [|done]. cbn [bind] in H.
  destruct (match pred_nets with [] => _ | _ => _ end); [|done]. cbn [bind] in H.
  destruct (get_kpts _ _ _) as [kpts|]; [|done]. cbn [bind] in H.
  destruct (slice_last2 _) as [gt|]; [|done]. cbn [bind] in H.
  destruct (PCK_curve_pnts _ _ _ _) as [nk|] eqn:E; [|done]. cbn [bind] in H.
  injection H as <-. by exists gt.
Qed.

Lemma mapM_length {A B} (f : A -> result B) (l : list A) (ys : list B) :
  mapM f l = Ok ys -> length ys = length l.
Proof.
  revert ys. induction l as [|x l IH]; intros ys; simpl.
  - by intros [= <-].
  - destruct (f x); [|done]. simpl. destruct (mapM f l); [|done]. simpl.
    intros [= <-]. simpl. f_equal. by apply IH.
Qed.

Lemma PCK_curve_pnts_sorted (pred gt : tensor) (img_side_len : Q) (nkpts : list Q)
    (i j : nat) (a b : Q) :
  PCK_curve_pnts thresholds pred gt img_side_len = Ok nkpts ->
  (i <= j)%nat -> nkpts !! i = Some a -> nkpts !! j = Some b -> (a <= b)%Q.
Proof.
  intros Hc Hij Ha Hb. unfold PCK_curve_pnts in Hc.
  destruct (mapM_lookup _ _ _ _ _ Hc Ha) as (ti & Hti & Hpi).
  destruct (mapM_lookup _ _ _ _ _ Hc Hb) as (tj & Htj & Hpj).
  destruct (PCK pred gt img_side_len ti) as [ri|] eqn:Hri; [|done].
  destruct (PCK pred gt img_side_len tj) as [rj|] eqn:Hrj; [|done].
  cbn in Hpi, Hpj. injection Hpi as <-. injection Hpj as <-.
  destruct (PCK_step pred gt img_side_len ti tj ri) as (r2 & Hr2 & Hle2); try done.
  - apply thresholds_nonneg. apply list_elem_of_lookup. eauto.
  - by apply (thresholds_sorted i j).
  - congruence.
Qed.

(** C6. For predicted and ground-truth coordinates of one shape, any side
    length and two tolerances [t1 <= t2] of the sweep: when [PCK] returns at
    [t1] it returns at [t2], and its count at [t1] is at most its count at
    [t2]; the counts that [PCK_curve_pnts] returns for the sweep do not
    decrease along the sweep; and neither do the sums of these counts over
    the batches of an evaluation, which are its accumulators. *)
Theorem PCK_monotone (pred gt : tensor) (img_side_len t1 t2 : Q) :
  shape pred = shape gt ->
  t1 ∈ thresholds -> t2 ∈ thresholds -> (t1 <= t2)%Q ->
  (forall r1, PCK pred gt img_side_len t1 = Ok r1 ->
     exists r2, PCK pred gt img_side_len t2 = Ok r2 /\ (snd r1 <= snd r2)%Q) /\
  (forall nkpts i j a b,
     PCK_curve_pnts thresholds pred gt img_side_len = Ok nkpts ->
     (i <= j)%nat -> nkpts !! i = Some a -> nkpts !! j = Some b -> (a <= b)%Q) /\
  (forall base pred_nets img bs per i j,
     Forall2 (fun b r => batch_counts base pred_nets img b = Ok r) bs per ->
     (i <= j < length thresholds)%nat ->
     (Qsum (count_at i <$> per) <= Qsum (count_at j <$> per))%Q).
Proof.
  intros _ Hin1 Hin2 Hle. split; [|split].
  - intros r1. apply PCK_step; [by apply thresholds_nonneg|done].
  - intros nkpts i j a b. apply PCK_curve_pnts_sorted.
  - intros base pred_nets img bs per i j Hper Hij.
    induction Hper as [|b r bs per Hr _ IH]; [apply Qle_refl|].
    rewrite !fmap_cons. cbn [Qsum foldr]. fold (Qsum (count_at i <$> per)).
    fold (Qsum (count_at j <$> per)).
    apply Qplus_le_compat; [|exact IH].
    destruct (batch_counts_curve _ _ _ _ _ Hr) as (gt' & Hc).
    pose proof (mapM_length _ _ _ Hc) as Hlen.
    destruct (lookup_lt_is_Some_2 (snd r) i) as [a Ha]; [lia|].
    destruct (lookup_lt_is_Some_2 (snd r) j) as [c Hc']; [lia|].
    unfold count_at. rewrite Ha, Hc'. cbn [default].
    apply (PCK_curve_pnts_sorted _ _ _ _ i j a c Hc); [lia|done|done].
Qed.

End Metric.

(** * Facts about lib/utils.py: the keypoint extraction *)

Section Keypoints.

Lemma argmax_from_spec (l p : list Q) (best : Q) (besti : nat) :
  p !! besti = Some best ->
  (forall j u, p !! j = Some u -> (u <= best)%Q) ->
  (forall j u, (j < besti)%nat -> p !! j = Some u -> (u < best)%Q) ->
  first_max (p ++ l) (argmax_from best besti (length p) l).
Proof.
  revert p best besti. induction l as [|x l IH]; intros p best besti Hb Hle Hlt; simpl.
  - rewrite app_nil_r. exists best. done.
  - assert (Hlen : length (p ++ [x]) = S (length p)) by (rewrite length_app; simpl; lia).
    replace (p ++ x :: l) with ((p ++ [x]) ++ l) by (by rewrite <- app_assoc).
    pose proof (IH (p ++ [x])) as IH'. rewrite Hlen in IH'.
    destruct (Qltb best x) eqn:E.
    + apply Qltb_lt in E. apply IH'.
      * rewrite lookup_app_r by lia. by rewrite Nat.sub_diag.
      * intros j u Hj. apply lookup_app_Some in Hj as [Hj|[_ Hj]].
        -- apply Hle in Hj. lra.
        -- destruct (j - length p)%nat; [|done]. injection Hj as <-. lra.
      * intros j u Hj Hu. rewrite lookup_app_l in Hu by lia. apply Hle in Hu. lra.
    + apply Qltb_ge in E. apply IH'.
      * by apply lookup_app_l_Some.
      * intros j u Hj. apply lookup_app_Some in Hj as [Hj|[_ Hj]].
        -- by apply (Hle j).
        -- destruct (j - length p)%nat; [|done]. by injection Hj as <-.
      * intros j u Hj Hu. apply lookup_lt_Some in Hb.
        rewrite lookup_app_l in Hu by lia. by apply (Hlt j).
Qed.

Lemma argmax_spec (l : list Q) :
  l <> [] -> exists i, argmax l = Ok i /\ first_max l i.
Proof.
  destruct l as [|x l]; [done|]. intros _. eexists. split; [reflexivity|].
  apply (argmax_from_spec l [x] x 0); simpl.
  - done.
  - intros [|j] u; [|done]. intros [= <-]. lra.
  - intros j u Hj. lia.
Qed.

Lemma first_max_lt_length (l : list Q) (i : nat) : first_max l i -> (i < length l)%nat.
Proof. intros (v & Hv & _). by apply lookup_lt_Some in Hv. Qed.

Lemma length_chunks (n k : nat) (l : list Q) : length (chunks n k l) = n.
Proof. revert l. induction n as [|n IH]; intros l; simpl; [done|]. by rewrite IH. Qed.

Lemma chunks_lookup (n k : nat) (l : list Q) (i : nat) :
  (i < n)%nat -> chunks n k l !! i = Some (take k (drop (i * k) l)).
Proof.
  revert l i. induction n as [|n IH]; intros l i Hi; [lia|].
  destruct i as [|i]; simpl; [done|].
  rewrite IH by lia. by rewrite drop_drop.
Qed.

Lemma mapM_Forall2 {A B} (f : A -> result B) (P : A -> B -> Prop) (l : list A) :
  Forall (fun x => exists y, f x = Ok y /\ P x y) l ->
  exists ys, mapM f l = Ok ys /\ Forall2 P l ys.
Proof.
  induction 1 as [|x l (y & Hy & HP) _ (ys & Hys & HF)]; simpl.
  - exists []. done.
  - rewrite Hy, Hys. simpl. exists (y :: ys). split; [done|]. by constructor.
Qed.

Lemma kpt_of_map_spec (m : tensor) (H W : nat) (img_h img_w : Q) :
  shape m = [H; W] -> length (data m) = (H * W)%nat -> (1 <= H)%nat -> (1 <= W)%nat ->
  exists i, first_max (data m) i /\ kpt_of_map img_h img_w m = Ok (kpt_at H W img_h img_w i).
Proof.
  intros Hs Hl HH HW.
  destruct (argmax_spec (data m)) as (i & Hi & Hmax).
  { intros E. rewrite E in Hl. simpl in Hl. nia. }
  exists i. split; [done|].
  pose proof (first_max_lt_length _ _ Hmax) as Hlt. rewrite Hl in Hlt.
  unfold kpt_of_map. rewrite Hi. cbn [bind]. unfold unravel_index. rewrite Hs.
  cbn [prod_shape foldr unravel].
  rewrite !Nat.mul_1_r, Nat.div_1_r.
  apply Nat.ltb_lt in Hlt as Hlt'. rewrite Hlt'. cbn [bind].
  rewrite (Nat.mod_small (i / W) H); [done|].
  apply Nat.Div0.div_lt_upper_bound. lia.
Qed.

Lemma mapM_indexed {A B} (f : A -> result B) (P : nat -> B -> Prop) (l : list A) :
  (forall i x, l !! i = Some x -> exists y, f x = Ok y /\ P i y) ->
  exists ys, mapM f l = Ok ys /\ length ys = length l /\
             forall i y, ys !! i = Some y -> P i y.
Proof.
  revert P. induction l as [|x l IH]; intros P HP; simpl.
  - exists []. split; [done|]. split; [done|]. intros i y Hy. done.
  - destruct (HP 0%nat x eq_refl) as (y & Hy & HPy).
    destruct (IH (fun i => P (S i))) as (ys & Hys & Hlen & Hall).
    { intros i x' Hx'. by apply (HP (S i)). }
    rewrite Hy, Hys. simpl. exists (y :: ys). split; [done|]. split; [simpl; lia|].
    intros [|i] y' Hy'; simpl in Hy'.
    + by injection Hy' as <-.
    + by apply Hall.
Qed.

Lemma channel_buffer (maps : tensor) (B C H W b c : nat) :
  shape maps = [B; C; H; W] -> tensor_wf maps -> (b < B)%nat -> (c < C)%nat ->
  take (H * W) (drop (c * (H * W)) (take (C * (H * W)) (drop (b * (C * (H * W))) (data maps))))
  = channel maps b c /\
  length (channel maps b c) = (H * W)%nat.
Proof.
  intros Hs Hwf Hb Hc. unfold channel. rewrite Hs.
  unfold tensor_wf, numel in Hwf. rewrite Hs in Hwf. cbn in Hwf.
  split.
  - replace (C * (H * W))%nat with (c * (H * W) + (C - c) * (H * W))%nat at 1 by nia.
    rewrite <- take_drop_commute, take_take, drop_drop.
    rewrite Nat.min_l by (destruct (C - c)%nat eqn:E; [lia|]; simpl; lia).
    do 2 f_equal. ring.
  - assert (b * C + c + 1 <= B * C)%nat by nia.
    assert ((b * C + c + 1) * (H * W) <= (B * C) * (H * W))%nat by (apply Nat.mul_le_mono_r; lia).
    rewrite length_take_le; [done|]. rewrite length_drop. nia.
Qed.

Lemma get_kpts_list_spec (maps : tensor) (B C H W : nat) (img_h img_w : Q) :
  shape maps = [B; C; H; W] -> tensor_wf maps -> (1 <= H)%nat -> (1 <= W)%nat ->
  exists all_kpts,
    get_kpts_list maps img_h img_w = Ok all_kpts /\
    length all_kpts = B /\
    forall b kpts, all_kpts !! b = Some kpts ->
      length kpts = C /\
      forall c kpt, kpts !! c = Some kpt ->
        exists i, first_max (channel maps b c) i /\ kpt = kpt_at H W img_h img_w i.
Proof.
  intros Hs Hwf HH HW. unfold get_kpts_list, unbind. rewrite Hs. cbn [bind].
  cbn [prod_shape foldr]. rewrite Nat.mul_1_r.
  match goal with |- context [mapM ?f ?l] =>
    destruct (mapM_indexed f
      (fun b kpts => length kpts = C /\
         forall c kpt, kpts !! c = Some kpt ->
           exists i, first_max (channel maps b c) i /\ kpt = kpt_at H W img_h img_w i) l)
      as (all_kpts & Hall & Hlen & Hspec)
  end.
  - intros b x Hx. apply list_lookup_fmap_Some in Hx as (d & -> & Hd).
    pose proof (lookup_lt_Some _ _ _ Hd) as Hb. rewrite length_chunks in Hb.
    rewrite chunks_lookup in Hd by done. injection Hd as <-.
    cbn [shape bind data requires_grad prod_shape foldr]. rewrite Nat.mul_1_r.
    match goal with |- context [mapM ?f ?l] =>
      destruct (mapM_indexed f
        (fun c kpt => exists i, first_max (channel maps b c) i /\
                                kpt = kpt_at H W img_h img_w i) l)
        as (kpts & Hk & Hklen & Hkspec)
    end.
    + intros c m Hm. apply list_lookup_fmap_Some in Hm as (d & -> & Hd).
      pose proof (lookup_lt_Some _ _ _ Hd) as Hc. rewrite length_chunks in Hc.
      rewrite chunks_lookup in Hd by done. injection Hd as <-.
      destruct (channel_buffer maps B C H W b c Hs Hwf Hb Hc) as [Hbuf Hblen].
      rewrite Hbuf.
      destruct (kpt_of_map_spec (Tensor [H; W] (channel maps b c) (requires_grad maps))
                  H W img_h img_w) as (i & Hi & Hkpt); try done.
      eauto.
    + exists kpts. split; [done|]. split; [|done].
      by rewrite Hklen, length_fmap, length_chunks.
  - exists all_kpts. split; [done|]. split; [|done].
    by rewrite Hlen, length_fmap, length_chunks.
Qed.



Lemma Qnat_nonneg (n : nat) : (0 <= Qnat n)%Q.
Proof. apply (Qnat_le 0). lia. Qed.

Lemma Qnat_lt (a b : nat) : (a < b)%nat -> (Qnat a < Qnat b)%Q.
Proof. intros H. unfold Qnat. rewrite <- Zlt_Qlt. lia. Qed.

Lemma py_int_bounds (q m : Q) :
  (0 <= q)%Q -> (q < m)%Q -> (0 <= py_int q)%Z /\ (inject_Z (py_int q) < m)%Q.
Proof.
  intros H0 Hm. unfold py_int.
  apply Qle_bool_iff in H0 as Hb. rewrite Hb. split.
  - change 0%Z with (Qfloor 0). by apply Qfloor_resp_le.
  - pose proof (Qfloor_le q). lra.
Qed.

Lemma scaled_index_bounds (i n : nat) (img : Q) :
  (i < n)%nat -> (0 < img)%Q ->
  (0 <= Qnat i * img / Qnat n)%Q /\ (Qnat i * img / Qnat n < img)%Q.
Proof.
  intros Hi Himg.
  assert (Hn : (0 < Qnat n)%Q) by (apply Qnat_pos; lia).
  pose proof (Qnat_nonneg i) as H0. pose proof (Qnat_lt i n Hi) as Hlt.
  split.
  - apply Qle_shift_div_l; [done|]. nra.
  - apply Qlt_shift_div_r; [done|]. nra.
Qed.



Lemma length_concat_uniform {A} (ls : list (list A)) (k : nat) :
  Forall (fun l => length l = k) ls -> length (concat ls) = (length ls * k)%nat.
Proof.
  induction 1 as [|l ls Hl _ IH]; [done|]. simpl. rewrite length_app, IH, Hl. lia.
Qed.





(** C9, amended.  For a heatmap batch of shape (B, C, H, W) with
    [H, W >= 1] and a target size that is positive in both directions, each
    coordinate that [get_kpts] returns lies in the target image:
    [0 <= x < img_w] and [0 <= y < img_h]. *)
Theorem get_kpts_in_bounds (maps : tensor) (B C H W : nat) (img_h img_w : Q) :
  shape maps = [B; C; H; W] -> tensor_wf maps -> (1 <= H)%nat -> (1 <= W)%nat ->
  (0 < img_h)%Q -> (0 < img_w)%Q ->
  exists all_kpts,
    get_kpts_list maps img_h img_w = Ok all_kpts /\
    get_kpts maps img_h img_w = Ok (np_array all_kpts) /\
    forall b c x y,
      all_kpts !! b ≫= (fun kpts => kpts !! c) = Some (x, y) ->
      (0 <= x)%Z /\ (inject_Z x < img_w)%Q /\ (0 <= y)%Z /\ (inject_Z y < img_h)%Q.
Proof.
  intros Hs Hwf HH HW Hh Hw.
  destruct (get_kpts_list_spec maps B C H W img_h img_w Hs Hwf HH HW)
    as (all_kpts & Hall & Hlen & Hspec).
  exists all_kpts. split; [done|]. split; [by unfold get_kpts; rewrite Hall|].
  intros b c x y Hxy.
  destruct (all_kpts !! b) as [kpts|] eqn:Hk; [|done]. simpl in Hxy.
  destruct (Hspec b kpts Hk) as [Hklen Hkspec].
  destruct (Hkspec c (x, y) Hxy) as (i & Hi & Hkpt).
  pose proof (lookup_lt_Some _ _ _ Hk) as Hb. rewrite Hlen in Hb.
  pose proof (lookup_lt_Some _ _ _ Hxy) as Hc. rewrite Hklen in Hc.
  apply first_max_lt_length in Hi.
  rewrite (proj2 (channel_buffer maps B C H W b c Hs Hwf Hb Hc)) in Hi.
  unfold kpt_at in Hkpt. injection Hkpt as -> ->.
  assert (Hw' : (i mod W < W)%nat) by (apply Nat.mod_upper_bound; lia).
  assert (Hh' : (i / W < H)%nat) by (apply Nat.Div0.div_lt_upper_bound; lia).
  destruct (scaled_index_bounds _ _ img_w Hw' Hw) as [Hx0 Hx1].
  destruct (scaled_index_bounds _ _ img_h Hh' Hh) as [Hy0 Hy1].
  destruct (py_int_bounds _ _ Hx0 Hx1). destruct (py_int_bounds _ _ Hy0 Hy1).
  done.
Qed.

End Keypoints.


(** * Facts about lib/utils.py: the evaluation loop *)

Section Evaluate.

(** ** Loops over a range *)

Lemma for_range_S (n : nat) (f : list Q -> nat -> result (list Q)) (l : list Q) :
  for_range (S n) f l = let* l' := for_range n f l in f l' n.
Proof. unfold for_range. by rewrite seq_S, foldl_app. Qed.

Lemma for_range_pointwise (upd : nat -> Q -> result Q)
    (f : list Q -> nat -> result (list Q)) (n : nat) (l l' : list Q) :
  (forall l i, f l i = match l !! i with
                       | Some a => let* v := upd i a in Ok (<[i := v]> l)
                       | None => Raise IndexError
                       end) ->
  for_range n f l = Ok l' ->
  length l' = length l /\ (n <= length l)%nat /\
  (forall i, (i < n)%nat -> exists a v, l !! i = Some a /\ upd i a = Ok v /\ l' !! i = Some v) /\
  (forall i, (n <= i)%nat -> l' !! i = l !! i).
Proof.
  intros Hf. revert l'. induction n as [|n IH]; intros l' Hl'.
  - injection Hl' as <-. split; [done|]. split; [lia|]. split; [lia|done].
  - rewrite for_range_S in Hl'.
    destruct (for_range n f l) as [l1|] eqn:H1; [|done]. cbn [bind] in Hl'.
    destruct (IH l1 eq_refl) as (Hlen & Hn & Hlt & Hge).
    rewrite Hf in Hl'. destruct (l1 !! n) as [a|] eqn:Ha; [|done].
    destruct (upd n a) as [v|] eqn:Hv; [|done]. cbn [bind] in Hl'. injection Hl' as <-.
    pose proof (lookup_lt_Some _ _ _ Ha) as Hn'.
    split; [by rewrite length_insert|]. split; [lia|]. split.
    + intros i Hi. destruct (decide (i = n)) as [->|Hne].
      * exists a, v. rewrite <- Hge by lia. split; [done|]. split; [done|].
        by apply list_lookup_insert_eq.
      * destruct (Hlt i) as (a' & v' & ? & ? & ?); [lia|].
        exists a', v'. by rewrite list_lookup_insert_ne.
    + intros i Hi. rewrite list_lookup_insert_ne by lia. apply Hge. lia.
Qed.

Lemma add_at_pointwise (nkpts l : list Q) (i : nat) :
  add_at nkpts l i =
  match l !! i with
  | Some a => let* v := (match nkpts !! i with
                         | Some b => Ok (a + b)%Q
                         | None => Raise IndexError
                         end) in Ok (<[i := v]> l)
  | None => Raise IndexError
  end.
Proof. unfold add_at. by destruct (l !! i), (nkpts !! i). Qed.

Lemma div_at_pointwise (tot : Q) (l : list Q) (i : nat) :
  div_at tot l i =
  match l !! i with
  | Some a => let* v := (if Qeq_bool tot 0 then Raise ZeroDivisionError
                         else Ok (a / tot)%Q) in Ok (<[i := v]> l)
  | None => Raise IndexError
  end.
Proof. unfold div_at. destruct (l !! i); [|done]. by destruct (Qeq_bool tot 0). Qed.

(** ** Computations in the world *)

Lemma bindM_Ok {A B} (m : M A) (k : A -> M B) (w w' : world) (b : B) :
  bindM m k w = (w', Ok b) ->
  exists a w1, m w = (w1, Ok a) /\ k a w1 = (w', Ok b).
Proof.
  unfold bindM. destruct (m w) as [w1 [a|e]]; [eauto|done].
Qed.

Lemma quiet_ret {A} (a : A) : quiet (ret a).
Proof. intros w w' r [= <- _]. done. Qed.

Lemma quiet_raise {A} (e : exn) : quiet (@raise A e).
Proof. intros w w' r [= <- _]. done. Qed.

Lemma quiet_lift {A} (r : result A) : quiet (lift r).
Proof. intros w w' r' [= <- _]. done. Qed.

Lemma quiet_emit (e : event) : is_train e = false -> quiet (emit e).
Proof.
  intros He w w' r [= <- _]. split; [done|]. cbn.
  rewrite filter_app, filter_cons_False, filter_nil, app_nil_r; [done|]. by rewrite He.
Qed.

Lemma quiet_bind {A B} (m : M A) (k : A -> M B) :
  quiet m -> (forall a, quiet (k a)) -> quiet (bindM m k).
Proof.
  intros Hm Hk w w' r. unfold bindM. destruct (m w) as [w1 [a|e]] eqn:E.
  - intros Hka. destruct (Hk a _ _ _ Hka) as [-> ->]. by apply (Hm _ _ _ E).
  - intros [= <- _]. by apply (Hm _ _ _ E).
Qed.

Lemma quiet_get_training (net : network) : quiet (get_training net).
Proof. by intros w w' r [= <- _]. Qed.

Create HintDb quiet.

#[local] Hint Resolve quiet_ret quiet_raise quiet_lift quiet_get_training : quiet.
#[local] Hint Extern 1 (quiet (emit _)) => apply quiet_emit; reflexivity : quiet.
#[local] Hint Extern 2 (quiet (bindM _ _)) => apply quiet_bind; [|intros ?] : quiet.
#[local] Hint Extern 3 (quiet (if ?b then _ else _)) => destruct b : quiet.

Lemma quiet_call (net : network) (x : tensor) : quiet (call net x).
Proof. unfold call. auto with quiet. Qed.

#[local] Hint Resolve quiet_call : quiet.

Lemma quiet_for_each {A S} (l : list A) (body : S -> A -> M S) (s : S) :
  (forall s x, quiet (body s x)) -> quiet (for_each l body s).
Proof.
  intros Hb. revert s. induction l as [|x l IH]; intros s; simpl; auto with quiet.
Qed.

Lemma quiet_visualize show_gt prefix status idx di b kpts :
  quiet (visualize show_gt prefix status idx di b kpts).
Proof. unfold visualize. auto 10 with quiet. Qed.

#[local] Hint Resolve quiet_visualize : quiet.

Lemma quiet_batch_body base pred_nets img status vis di show_gt prefix a b :
  quiet (batch_body base pred_nets img status vis di show_gt prefix a b).
Proof.
  unfold batch_body. destruct pred_nets as [|p0 [|p1 ?]]; auto 20 with quiet.
Qed.

Lemma lift_Ok {A} (r : result A) (w w' : world) (a : A) :
  lift r w = (w', Ok a) -> w' = w /\ r = Ok a.
Proof. by intros [= <- ->]. Qed.

Lemma call_Ok (net : network) (x y : tensor) (w w' : world) :
  call net x w = (w', Ok y) ->
  training w' = training w /\ forward net (training w !!! net_id net) x = Ok y.
Proof.
  unfold call, bindM, get_training, emit, lift. cbn. by intros [= <- ->].
Qed.

Tactic Notation "step" hyp(H) "as" ident(a) ident(w) ident(H1) :=
  apply bindM_Ok in H as (a & w & H1 & H).

(** A batch that the loop body gets through contributes what [batch_counts]
    says, when the networks are in inference mode. *)
Lemma batch_body_Ok base pred_nets img status vis di show_gt prefix a b w w' a' :
  training w !!! net_id base = false ->
  (forall p, p ∈ pred_nets -> training w !!! net_id p = false) ->
  batch_body base pred_nets img status vis di show_gt prefix a b w = (w', Ok a') ->
  exists r, batch_counts base pred_nets img b = Ok r /\
    tot_pnt a' = (tot_pnt a + keypoints_of r)%Q /\
    for_range (length (tot_nkpts a)) (add_at (snd r)) (tot_nkpts a) = Ok (tot_nkpts a') /\
    idx a' = (idx a + 1)%Z.
Proof.
  intros Hbase Hpred H. unfold batch_body in H.
  step H as feats w1 Hc. apply call_Ok in Hc as [Ht1 Hf]. rewrite Hbase in Hf.
  step H as heats w2 Hh.
  assert (Hheats :
    match pred_nets with
    | [p0] => forward p0 false feats
    | p0 :: p1 :: _ =>
        let* h0 := forward p0 false feats in
        let* h1 := forward p1 false feats in
        let* s := elementwise Qplus h0 h1 in
        Ok (pointwise (fun x => x / 2)%Q s)
    | [] => Raise IndexError
    end = Ok heats).
  { destruct pred_nets as [|p0 [|p1 rest]]; [done| |].
    - apply call_Ok in Hh as [_ Hp].
      rewrite Ht1, Hpred in Hp by (apply list_elem_of_here). done.
    - step Hh as h0 w3 Hc0. apply call_Ok in Hc0 as [Ht3 Hp0].
      step Hh as h1 w4 Hc1. apply call_Ok in Hc1 as [Ht4 Hp1].
      step Hh as s w5 Hs. apply lift_Ok in Hs as [-> Hs]. injection Hh as _ <-.
      rewrite Ht1, Hpred in Hp0 by (apply list_elem_of_here).
      rewrite Ht3, Ht1, Hpred in Hp1 by (apply list_elem_of_further, list_elem_of_here).
      rewrite Hp0, Hp1. cbn [bind]. by rewrite Hs. }
  step H as kpts w3 Hk. apply lift_Ok in Hk as [-> Hk].
  step H as gt w4 Hgt. apply lift_Ok in Hgt as [-> Hgt].
  step H as nk w5 Hnk. apply lift_Ok in Hnk as [-> Hnk].
  step H as tot w6 Htot. apply lift_Ok in Htot as [-> Htot].
  step H as u w7 Hvis. injection H as _ <-. cbn [tot_pnt tot_nkpts idx].
  exists (kpts, nk). unfold batch_counts. rewrite Hf. cbn [bind]. rewrite Hheats. cbn [bind].
  rewrite Hk. cbn [bind]. rewrite Hgt. cbn [bind]. rewrite Hnk. cbn [bind].
  done.
Qed.

Lemma Qsum_cons (x : Q) (l : list Q) : Qsum (x :: l) = (x + Qsum l)%Q.
Proof. done. Qed.

(** The batch loop, when it gets through every batch. *)
Lemma batch_loop_Ok base pred_nets img status vis di show_gt prefix bs :
  forall a w w' a',
  training w !!! net_id base = false ->
  (forall p, p ∈ pred_nets -> training w !!! net_id p = false) ->
  for_each bs (batch_body base pred_nets img status vis di show_gt prefix) a w = (w', Ok a') ->
  exists per,
    Forall2 (fun b r => batch_counts base pred_nets img b = Ok r) bs per /\
    (tot_pnt a' == tot_pnt a + Qsum (keypoints_of <$> per))%Q /\
    length (tot_nkpts a') = length (tot_nkpts a) /\
    forall i x, tot_nkpts a !! i = Some x ->
      exists y, tot_nkpts a' !! i = Some y /\ (y == x + Qsum (count_at i <$> per))%Q.
Proof.
  induction bs as [|b bs IH]; intros a w w' a' Hbase Hpred H; simpl in H.
  - injection H as _ <-. exists []. split; [constructor|]. split; [simpl; ring|].
    split; [done|]. intros i x Hx. exists x. split; [done|]. simpl. ring.
  - step H as a0 w0 H0.
    destruct (quiet_batch_body _ _ _ _ _ _ _ _ _ _ _ _ _ H0) as [Ht _].
    destruct (batch_body_Ok _ _ _ _ _ _ _ _ _ _ _ _ _ Hbase Hpred H0)
      as (r & Hr & Hpnt & Hadd & _).
    destruct (for_range_pointwise _ _ _ _ _ (add_at_pointwise (snd r)) Hadd)
      as (Hlen & _ & Hlt & _).
    destruct (IH a0 w0 w' a') as (per & Hper & Hpnt' & Hlen' & Hcnt); [by rewrite Ht| |done|].
    { intros p Hp. rewrite Ht. by apply Hpred. }
    exists (r :: per). split; [by constructor|]. split.
    { rewrite Hpnt', Hpnt, fmap_cons, Qsum_cons. ring. }
    split; [congruence|]. intros i x Hx.
    destruct (Hlt i) as (x' & v & Hx' & Hv & Hi); [by apply lookup_lt_Some in Hx|].
    assert (x' = x) as -> by congruence.
    destruct (snd r !! i) as [y|] eqn:Hy; [|done]. injection Hv as <-.
    destruct (Hcnt i _ Hi) as (z & Hz & Hzeq). exists z. split; [done|].
    rewrite Hzeq, fmap_cons, Qsum_cons. unfold count_at at 2. rewrite Hy. simpl. ring.
Qed.


(** ** The mode switch and its release *)

Lemma snapshot_loop (nets : list network) (prev : list bool) (w : world) :
  for_each nets (fun previous_states net =>
                   do t <- get_training net;
                   do _ <- net_eval net;
                   ret (previous_states ++ [t])) prev w =
  (World (eval_all (training w) nets) (trace w ++ ((fun net => EvEval (net_id net)) <$> nets)),
   Ok (prev ++ snapshot (training w) nets)).
Proof.
  revert prev w. induction nets as [|net nets IH]; intros prev w.
  - destruct w. cbn. by rewrite !app_nil_r.
  - cbn [for_each]. unfold bindM at 1. cbn.
    rewrite IH. cbn. by rewrite <- !app_assoc.
Qed.

Lemma restore_loop (l : list (bool * network)) (w : world) :
  for_each l (fun _ sn => net_train (snd sn) (fst sn)) tt w =
  (World (restore_all (training w) l)
         (trace w ++ ((fun sn => EvTrain (net_id (snd sn)) (fst sn)) <$> l)),
   Ok tt).
Proof.
  revert w. induction l as [|sn l IH]; intros w.
  - destruct w. cbn. by rewrite app_nil_r.
  - cbn [for_each]. unfold bindM at 1. cbn.
    rewrite IH. cbn. by rewrite <- !app_assoc.
Qed.

Lemma set_flags_lookup (ids : list nat) (mode : bool) (m : gmap nat bool) (i : nat) :
  set_flags ids mode m !!! i = if decide (i ∈ ids) then mode else m !!! i.
Proof.
  induction ids as [|id ids IH]; cbn [set_flags foldr].
  - rewrite decide_False; [done|]. apply not_elem_of_nil.
  - fold (set_flags ids mode m). destruct (decide (i = id)) as [->|Hne].
    + rewrite lookup_total_insert_eq, decide_True; [done|]. apply list_elem_of_here.
    + rewrite lookup_total_insert_ne by done. rewrite IH.
      destruct (decide (i ∈ ids)) as [Hin|Hnin].
      * rewrite decide_True; [done|]. by apply list_elem_of_further.
      * rewrite decide_False; [done|]. intros [|]%elem_of_cons; done.
Qed.

Lemma eval_all_lookup (nets : list network) (m : gmap nat bool) (i : nat) :
  eval_all m nets !!! i = if decide (i ∈ nets ≫= modules) then false else m !!! i.
Proof.
  revert m. induction nets as [|net nets IH]; intros m; cbn [eval_all].
  - rewrite decide_False; [done|]. apply not_elem_of_nil.
  - rewrite IH, bind_cons. destruct (decide (i ∈ nets ≫= modules)) as [Hin|Hnin].
    + rewrite decide_True; [done|]. apply elem_of_app. by right.
    + rewrite set_flags_lookup. destruct (decide (i ∈ modules net)) as [Hi|Hni].
      * rewrite decide_True; [done|]. apply elem_of_app. by left.
      * rewrite decide_False; [done|]. intros [|]%elem_of_app; done.
Qed.

Lemma modules_bind (nets : list network) (net : network) (id : nat) :
  net ∈ nets -> id ∈ modules net -> id ∈ nets ≫= modules.
Proof. intros Hin Hid. apply list_elem_of_bind. by exists net. Qed.

(** After the snapshot loop every participant is in inference mode, and so
    is every module nested in one. *)
Lemma eval_all_modules (nets : list network) (m : gmap nat bool) (net : network) (id : nat) :
  net ∈ nets -> id ∈ modules net -> eval_all m nets !!! id = false.
Proof.
  intros Hin Hid. rewrite eval_all_lookup, decide_True; [done|]. by apply (modules_bind _ net).
Qed.

Lemma eval_all_participant (nets : list network) (m : gmap nat bool) (net : network) :
  net ∈ nets -> eval_all m nets !!! net_id net = false.
Proof. intros Hin. apply (eval_all_modules _ _ net); [done|]. apply list_elem_of_here. Qed.

(** When no module occurs twice among the participants and the modules
    nested in them, a module belongs to one participant only. *)
Lemma NoDup_bind_owner {A B} (f : A -> list B) (l : list A) (a b : A) (x : B) :
  NoDup (l ≫= f) -> a ∈ l -> b ∈ l -> x ∈ f a -> x ∈ f b -> a = b.
Proof.
  induction l as [|c l IH]; intros Hnd Ha Hb Hxa Hxb; [by apply elem_of_nil in Ha|].
  rewrite bind_cons in Hnd. apply NoDup_app in Hnd as (_ & Hdis & Hnd).
  apply elem_of_cons in Ha as [->|Ha]; apply elem_of_cons in Hb as [->|Hb].
  - done.
  - exfalso. apply (Hdis x Hxa). apply list_elem_of_bind. by exists b.
  - exfalso. apply (Hdis x Hxb). apply list_elem_of_bind. by exists a.
  - by apply IH.
Qed.

Lemma snapshot_disjoint (nets : list network) (m m' : gmap nat bool) :
  NoDup (nets ≫= modules) ->
  (forall net, net ∈ nets -> m' !!! net_id net = m !!! net_id net) ->
  snapshot m' nets = (fun net => m !!! net_id net) <$> nets.
Proof.
  revert m'. induction nets as [|net nets IH]; intros m' Hnd Hm; [done|].
  rewrite bind_cons in Hnd. apply NoDup_app in Hnd as (_ & Hdis & Hnd).
  cbn [snapshot fmap list_fmap]. f_equal.
  - apply Hm. apply list_elem_of_here.
  - apply IH; [done|]. intros net' Hin.
    rewrite set_flags_lookup, decide_False; [by apply Hm, list_elem_of_further|].
    intros Hmem. apply (Hdis _ Hmem). apply (modules_bind _ net'); [done|].
    apply list_elem_of_here.
Qed.

Lemma restore_all_lookup (nets : list network) (f : network -> bool) (m : gmap nat bool) (i : nat) :
  NoDup (nets ≫= modules) ->
  restore_all m (zip (f <$> nets) nets) !!! i =
  match list_find (fun net => i ∈ modules net) nets with
  | Some (_, net) => f net
  | None => m !!! i
  end.
Proof.
  revert m. induction nets as [|net nets IH]; intros m Hnd; [done|].
  rewrite bind_cons in Hnd. apply NoDup_app in Hnd as (_ & Hdis & Hnd).
  cbn [fmap list_fmap zip zip_with restore_all fst snd list_find].
  rewrite IH by done. destruct (decide (i ∈ modules net)) as [Hi|Hni].
  - destruct (list_find _ nets) as [[k net']|] eqn:E.
    + apply list_find_Some in E as (Hk & Hid & _).
      exfalso. apply (Hdis i Hi). apply (modules_bind _ net'); [|done].
      by apply list_elem_of_lookup_2 in Hk.
    + cbn [fmap option_fmap option_map]. by rewrite set_flags_lookup, decide_True.
  - destruct (list_find _ nets) as [[k net']|] eqn:E;
      cbn [fmap option_fmap option_map prod_map]; [done|].
    by rewrite set_flags_lookup, decide_False.
Qed.

(** With module trees that share no object, releasing the snapshot gives
    every module the mode that its participant had before the switch, and
    leaves every other object as it was. *)
Lemma restore_eval_all (nets : list network) (m : gmap nat bool) (i : nat) :
  NoDup (nets ≫= modules) ->
  restore_all (eval_all m nets) (zip (snapshot m nets) nets) !!! i =
  match list_find (fun net => i ∈ modules net) nets with
  | Some (_, net) => m !!! net_id net
  | None => m !!! i
  end.
Proof.
  intros Hnd. rewrite (snapshot_disjoint nets m m) by done.
  rewrite restore_all_lookup by done.
  destruct (list_find _ nets) as [[k net']|] eqn:E; [done|].
  rewrite eval_all_lookup, decide_False; [done|].
  intros (net & Hi & Hin)%list_elem_of_bind.
  apply list_find_None in E. rewrite Forall_forall in E. by apply (E net).
Qed.

Lemma restore_modules (nets : list network) (m : gmap nat bool) (net : network) (id : nat) :
  NoDup (nets ≫= modules) -> net ∈ nets -> id ∈ modules net ->
  restore_all (eval_all m nets) (zip (snapshot m nets) nets) !!! id = m !!! net_id net.
Proof.
  intros Hnd Hin Hid. rewrite restore_eval_all by done.
  destruct (list_find _ nets) as [[k net']|] eqn:E.
  - apply list_find_Some in E as (Hk & Hid' & _). apply list_elem_of_lookup_2 in Hk.
    by rewrite (NoDup_bind_owner modules nets net net' id).
  - apply list_find_None in E. rewrite Forall_forall in E. by destruct (E net Hin).
Qed.

Lemma restore_others (nets : list network) (m : gmap nat bool) (id : nat) :
  NoDup (nets ≫= modules) -> id ∉ nets ≫= modules ->
  restore_all (eval_all m nets) (zip (snapshot m nets) nets) !!! id = m !!! id.
Proof.
  intros Hnd Hid. rewrite restore_eval_all by done.
  destruct (list_find _ nets) as [[k net']|] eqn:E; [|done].
  apply list_find_Some in E as (Hk & Hid' & _). apply list_elem_of_lookup_2 in Hk.
  destruct Hid. by apply (modules_bind _ net').
Qed.


(** ** The whole of [evaluate] *)

(** What a normal return of [evaluate_body] went through: the batch loop ran
    in the store where every participant is in inference mode, the snapshot
    was released after it, the accumulators were divided, and the two results
    were read at index 5 and at the end. *)
Lemma evaluate_body_Ok base loader img p1 p2 status vis logger di show_gt is_target w w' r :
  evaluate_body base loader img p1 p2 status vis logger di show_gt is_target w = (w', Ok r) ->
  let nets := participants base p1 p2 in
  let prefix := (if is_target then "tgt" else "src")%string in
  exists w3 a tot,
    for_each (batches loader)
      (batch_body base (opt_list p1 ++ opt_list p2) img status vis di show_gt prefix)
      (Acc (replicate (length thresholds) 0%Q) 0%Q 0%Z)
      (World (eval_all (training w) nets)
             (trace w ++ ((fun net => EvEval (net_id net)) <$> nets))) = (w3, Ok a) /\
    training w' = restore_all (training w3) (zip (snapshot (training w) nets) nets) /\
    trace w' = (trace w3
                ++ ((fun sn => EvTrain (net_id (snd sn)) (fst sn))
                      <$> zip (snapshot (training w) nets) nets))
               ++ [EvPlot thresholds tot; EvFigure prefix status] /\
    for_range (length (tot_nkpts a)) (div_at (tot_pnt a)) (tot_nkpts a) = Ok tot /\
    tot !! 5%nat = Some (fst r) /\ last tot = Some (snd r).
Proof.
  intros H nets prefix. unfold evaluate_body in H.
  step H as d w1 Hd.
  assert (w1 = w) as -> by (destruct (device base); by injection Hd as <-).
  step H as prev w2 Hsnap. rewrite snapshot_loop in Hsnap. injection Hsnap as <- <-.
  step H as a w3 Hloop.
  step H as u w4 Hrest. rewrite restore_loop in Hrest. injection Hrest as <-.
  step H as tot w5 Hdiv. apply lift_Ok in Hdiv as [-> Hdiv].
  step H as u1 w6 Hplot. injection Hplot as <-.
  step H as u2 w7 Hlog.
  destruct logger as [l|]; [|done]. injection Hlog as <-.
  destruct (tot !! 5%nat) as [x|] eqn:H5; [|destruct (last tot); done].
  destruct (last tot) as [y|] eqn:Hlast; [|done].
  injection H as <- <-.
  exists w3, a, tot. split; [exact Hloop|]. cbn [training trace fst snd].
  split; [done|]. split; [by rewrite <- app_assoc|]. done.
Qed.


Lemma filter_train_evals (nets : list network) :
  filter (fun e => is_train e = true) ((fun net => EvEval (net_id net)) <$> nets) = [].
Proof.
  induction nets as [|net nets IH]; [done|].
  rewrite fmap_cons, filter_cons_False; [done|]. simpl. discriminate.
Qed.

Lemma filter_train_trains (f : network -> bool) (nets : list network) :
  filter (fun e => is_train e = true)
         ((fun sn => EvTrain (net_id (snd sn)) (fst sn)) <$> zip (f <$> nets) nets) =
  (fun net => EvTrain (net_id net) (f net)) <$> nets.
Proof.
  induction nets as [|net nets IH]; [done|].
  cbn [fmap list_fmap zip zip_with fst snd]. rewrite filter_cons_True by done.
  f_equal. exact IH.
Qed.

Lemma evaluate_Some base loader img p1 p2 status vis logger di show_gt is_target w w' r :
  evaluate (Some base) loader img p1 p2 status vis logger di show_gt is_target w = (w', Ok r) ->
  evaluate_body base loader img p1 p2 status vis logger di show_gt is_target w = (w', Ok r).
Proof.
  unfold evaluate, bindM, lift, check_args.
  destruct p1, p2; done.
Qed.

(** An error raised by the batch loop is the outcome of [evaluate]: the loop
    that recovers the state is not reached, and every participant is left in
    inference mode. *)
Lemma evaluate_error_in_loop base loader img p1 p2 status vis (logger : option unit) di
    show_gt (is_target : bool) w w3 e :
  device base <> None -> check_args (Some base) p1 p2 = Ok tt ->
  for_each (batches loader)
    (batch_body base (opt_list p1 ++ opt_list p2) img status vis di show_gt
                (if is_target then "tgt" else "src")%string)
    (Acc (replicate (length thresholds) 0%Q) 0%Q 0%Z)
    (World (eval_all (training w) (participants base p1 p2))
           (trace w ++ ((fun net => EvEval (net_id net)) <$> participants base p1 p2)))
    = (w3, Raise e) ->
  evaluate (Some base) loader img p1 p2 status vis logger di show_gt is_target w
    = (w3, Raise e) /\
  (forall net, net ∈ participants base p1 p2 -> training w3 !!! net_id net = false) /\
  filter (fun e => is_train e = true) (trace w3) = filter (fun e => is_train e = true) (trace w).
Proof.
  intros Hdev Hargs Hloop. split.
  - unfold evaluate, bindM at 1, lift. rewrite Hargs. unfold evaluate_body.
    unfold bindM at 1. destruct (device base) as [d|]; [|done]. cbn [ret].
    unfold bindM at 1. rewrite snapshot_loop.
    unfold bindM at 1. unfold participants in Hloop. cbn [app] in Hloop. by rewrite Hloop.
  - apply quiet_for_each in Hloop as [Ht Hf]; [|intros; apply quiet_batch_body].
    cbn [training trace] in Ht, Hf. split.
    + intros net Hin. rewrite Ht. by apply eval_all_participant.
    + by rewrite Hf, filter_app, filter_train_evals, app_nil_r.
Qed.

(** C1, amended.  For every call to [evaluate] that returns normally, on
    participating networks whose module trees share no object (no network
    passed twice, none nested in another), each network's [training]
    attribute equals the value it had before the call, every module nested in
    a participant has that value too, and the call has made exactly one
    [net.train(state)] per participant, with the value saved for it. *)
Theorem evaluate_restores_modes base loader img p1 p2 status vis logger di show_gt is_target
    w w' r :
  evaluate (Some base) loader img p1 p2 status vis logger di show_gt is_target w = (w', Ok r) ->
  NoDup (participants base p1 p2 ≫= modules) ->
  (forall net, net ∈ participants base p1 p2 ->
     training w' !!! net_id net = training w !!! net_id net) /\
  (forall net id, net ∈ participants base p1 p2 -> id ∈ submodules net ->
     training w' !!! id = training w !!! net_id net) /\
  filter (fun e => is_train e = true) (trace w') =
    filter (fun e => is_train e = true) (trace w)
    ++ ((fun net => EvTrain (net_id net) (training w !!! net_id net))
          <$> participants base p1 p2).
Proof.
  intros H Hnd. apply evaluate_Some, evaluate_body_Ok in H.
  cbv zeta in H. destruct H as (w3 & a & tot & Hloop & Htr & Htrace & _).
  apply quiet_for_each in Hloop as [Ht3 Hf3]; [|intros; apply quiet_batch_body].
  cbn [training trace] in Ht3, Hf3. split; [|split].
  - intros net Hin. rewrite Htr, Ht3. apply restore_modules; [done..|].
    apply list_elem_of_here.
  - intros net id Hin Hid. rewrite Htr, Ht3. apply restore_modules; [done..|].
    by apply list_elem_of_further.
  - rewrite Htrace, !filter_app, Hf3, filter_app, filter_train_evals, app_nil_r.
    rewrite (snapshot_disjoint _ (training w) (training w)) by done.
    rewrite filter_train_trains.
    by rewrite !app_nil_r.
Qed.

Lemma batch_counts_length base pred_nets img b r :
  batch_counts base pred_nets img b = Ok r -> length (snd r) = 21%nat.
Proof.
  unfold batch_counts.
  destruct (forward base false (inputs b)); [|done]. cbn [bind].
  destruct (match pred_nets with [] => _ | _ => _ end); [|done]. cbn [bind].
  destruct (get_kpts _ _ _); [|done]. cbn [bind].
  destruct (slice_last2 _); [|done]. cbn [bind].
  destruct (PCK_curve_pnts _ _ _ _) as [nk|] eqn:E; [|done]. cbn [bind].
  intros [= <-]. by apply mapM_length in E.
Qed.

Lemma mapM_lookup_l {A B} (f : A -> result B) (l : list A) (ys : list B) (i : nat) (x : A) :
  mapM f l = Ok ys -> l !! i = Some x -> exists y, ys !! i = Some y /\ f x = Ok y.
Proof.
  intros Hm Hx. destruct (lookup_lt_is_Some_2 ys i) as [y Hy].
  { rewrite (mapM_length _ _ _ Hm). by apply lookup_lt_Some in Hx. }
  destruct (mapM_lookup _ _ _ _ _ Hm Hy) as (x' & Hx' & Hf).
  exists y. split; [done|]. congruence.
Qed.

(** The count of a batch at index [i] is the count of [PCK] at the threshold
    of index [i], on the predicted keypoints and the first two coordinates of
    the true ones. *)
Lemma batch_counts_PCK base pred_nets img b r i t :
  batch_counts base pred_nets img b = Ok r ->
  thresholds !! i = Some t ->
  exists gt p, slice_last2 (gt_kpts b) = Ok gt /\
               PCK (fst r) gt img t = Ok (p, count_at i r).
Proof.
  unfold batch_counts. intros H Ht.
  destruct (forward base false (inputs b)); [|done]. cbn [bind] in H.
  destruct (match pred_nets with [] => _ | _ => _ end); [|done]. cbn [bind] in H.
  destruct (get_kpts _ _ _) as [kpts|]; [|done]. cbn [bind] in H.
  destruct (slice_last2 _) as [gt|]; [|done]. cbn [bind] in H.
  destruct (PCK_curve_pnts _ _ _ _) as [nk|] eqn:E; [|done]. cbn [bind] in H.
  injection H as <-. cbn [fst snd]. unfold count_at. cbn [snd].
  destruct (mapM_lookup_l _ _ _ _ _ E Ht) as (y & Hy & Hp).
  destruct (PCK kpts gt img t) as [[p n]|] eqn:Hpck; [|done]. cbn in Hp. injection Hp as ->.
  exists gt, p. rewrite Hy, Hpck. split; reflexivity.
Qed.

(** C2. The sweep of [evaluate] has 21 values, the one of index [i] being
    [i * (0.2 / 20)], from 0 to 0.2 with 0.05 at index 5.  When [evaluate]
    returns, every batch has contributed one count per threshold, and the two
    results are the sums over the batches of the counts of index 5 and of
    index 20, each divided by the total number of keypoints. *)
Theorem evaluate_result base_net loader img p1 p2 status vis logger di show_gt is_target
    w r1 r2 :
  snd (evaluate base_net loader img p1 p2 status vis logger di show_gt is_target w)
    = Ok (r1, r2) ->
  (length thresholds = 21%nat /\
   (forall i t, thresholds !! i = Some t -> (t == Qnat i * (0.2 / 20))%Q) /\
   (forall t, thresholds !! 0%nat = Some t -> (t == 0)%Q) /\
   (forall t, thresholds !! 5%nat = Some t -> (t == 0.05)%Q) /\
   last thresholds = Some 0.2%Q) /\
  exists base per,
    base_net = Some base /\
    Forall2 (fun b r => batch_counts base (opt_list p1 ++ opt_list p2) img b = Ok r)
            (batches loader) per /\
    Forall (fun r => length (snd r) = length thresholds) per /\
    (forall k b r i t, batches loader !! k = Some b -> per !! k = Some r ->
       thresholds !! i = Some t ->
       exists gt p, slice_last2 (gt_kpts b) = Ok gt /\
                    PCK (fst r) gt img t = Ok (p, count_at i r)) /\
    let total := Qsum (keypoints_of <$> per) in
    ~ (total == 0)%Q /\
    (r1 == Qsum (count_at 5 <$> per) / total)%Q /\
    (r2 == Qsum (count_at 20 <$> per) / total)%Q.
Proof.
  intros H. split.
  { split; [reflexivity|]. split.
    - intros i t Ht. destruct (thresholds_value i t Ht) as [_ ->]. field.
    - split; [by intros t [= <-]|]. split; [by intros t [= <-]|]. reflexivity. }
  destruct (evaluate _ _ _ _ _ _ _ _ _ _ _ w) as [w' res] eqn:E. simpl in H. subst res.
  destruct base_net as [base|]; [|done].
  apply evaluate_Some, evaluate_body_Ok in E. cbv zeta in E.
  destruct E as (w3 & a & tot & Hloop & _ & _ & Hdiv & H5 & Hlast).
  cbn [fst snd] in H5, Hlast.
  apply batch_loop_Ok in Hloop as (per & Hper & Hpnt & Hlen & Hcnt); cbn [training].
  2: { apply eval_all_participant, list_elem_of_here. }
  2: { intros p Hp. apply eval_all_participant. by apply list_elem_of_further. }
  cbn [tot_pnt tot_nkpts] in Hpnt, Hlen, Hcnt. rewrite length_replicate in Hlen.
  destruct (for_range_pointwise _ _ _ _ _ (div_at_pointwise (tot_pnt a)) Hdiv)
    as (Hlen' & _ & Hlt & _).
  rewrite Hlen in Hlen', Hlt. change (length thresholds) with 21%nat in *.
  rewrite last_lookup, Hlen' in Hlast. cbn [pred] in Hlast.
  exists base, per. split; [done|]. split; [done|]. split.
  { apply Forall_forall. intros r Hr. apply list_elem_of_lookup in Hr as [k Hk].
    destruct (Forall2_lookup_r _ _ _ _ _ Hper Hk) as (b & _ & Hb).
    by apply batch_counts_length in Hb. }
  split.
  { intros k b r i t Hb Hr Ht.
    destruct (Forall2_lookup_l _ _ _ _ _ Hper Hb) as (r' & Hr' & Hbr).
    assert (r' = r) as -> by congruence.
    by apply (batch_counts_PCK base (opt_list p1 ++ opt_list p2) img b r i t). }
  assert (Hres : forall i ri, (i < 21)%nat -> tot !! i = Some ri ->
            ~ (tot_pnt a == 0)%Q /\ (ri == Qsum (count_at i <$> per) / tot_pnt a)%Q).
  { intros i ri Hi Hri. destruct (Hlt i Hi) as (x & v & Hx & Hv & Htot).
    destruct (Qeq_bool (tot_pnt a) 0) eqn:Hz; [done|]. injection Hv as <-.
    assert (ri = (x / tot_pnt a)%Q) as -> by congruence.
    destruct (Hcnt i 0%Q) as (y & Hy & Hyeq); [by apply lookup_replicate_2|].
    assert (y = x) as -> by congruence.
    split; [by apply Qeq_bool_neq|]. rewrite Hyeq. field. by apply Qeq_bool_neq. }
  cbv zeta.
  destruct (Hres 5%nat r1) as [Hnz Hr1]; [lia|done|].
  destruct (Hres 20%nat r2) as [_ Hr2]; [lia|done|].
  assert (Htot : (tot_pnt a == Qsum (keypoints_of <$> per))%Q) by (rewrite Hpnt; ring).
  rewrite <- Htot. done.
Qed.

(** C7. Without a backbone, or with a backbone and neither head,
    [evaluate] raises the assertion error of that check and leaves the world
    as it was: no network switched, no batch processed.  With a backbone and
    a head both assertions pass and [evaluate] goes on to its body. *)
Theorem evaluate_assertions base_net loader img p1 p2 status vis logger di show_gt is_target w :
  match base_net, p1, p2 with
  | None, _, _ =>
      evaluate base_net loader img p1 p2 status vis logger di show_gt is_target w =
      (w, Raise (AssertionError "ERROR: base net is NOT specified!"))
  | Some _, None, None =>
      evaluate base_net loader img p1 p2 status vis logger di show_gt is_target w =
      (w, Raise (AssertionError "ERROR: prediction nets are all NOT specified!"))
  | Some base, _, _ =>
      check_args base_net p1 p2 = Ok tt /\
      evaluate base_net loader img p1 p2 status vis logger di show_gt is_target w =
      evaluate_body base loader img p1 p2 status vis logger di show_gt is_target w
  end.
Proof.
  destruct base_net as [base|], p1 as [h1|], p2 as [h2|]; try done.
  all: split; [done|]; unfold evaluate, bindM, lift, check_args; by destruct (evaluate_body _ _ _ _ _ _ _ _ _ _ _ w) as [? []].
Qed.

End Evaluate.


Lemma PCK_monotone_witness :
  exists r2, PCK Examples.pred_kpts Examples.true_kpts 8 0.2 = Ok r2 /\
             (snd ((1 # 2)%Q, 1%Q) <= snd r2)%Q.
Proof.
  refine (proj1 (PCK_monotone Examples.pred_kpts Examples.true_kpts 8 (20 # 200) 0.2
                   eq_refl _ _ _) (1 # 2, 1)%Q eq_refl).
  - apply list_elem_of_lookup. exists 10%nat. reflexivity.
  - apply list_elem_of_lookup. exists 20%nat. reflexivity.
  - discriminate.
Defined.




(** C9, as stated, fails for the target size 0, which is not negative: the
    coordinate 0 is then not below the width 0. *)
Lemma get_kpts_target_zero :
  (0 <= 0)%Q /\
  get_kpts_list Examples.heatmap 0 0 = Ok [[(0, 0)%Z]] /\
  ~ (inject_Z 0 < 0)%Q.
Proof.
  split; [discriminate|]. split; [reflexivity|]. intros H. discriminate H.
Qed.

Lemma get_kpts_in_bounds_witness :
  exists all_kpts,
    get_kpts_list Examples.heatmap 8 8 = Ok all_kpts /\
    get_kpts Examples.heatmap 8 8 = Ok (np_array all_kpts) /\
    forall b c x y,
      all_kpts !! b ≫= (fun kpts => kpts !! c) = Some (x, y) ->
      (0 <= x)%Z /\ (inject_Z x < 8)%Q /\ (0 <= y)%Z /\ (inject_Z y < 8)%Q.
Proof.
  refine (get_kpts_in_bounds Examples.heatmap 1 1 4 4 8 8 eq_refl eq_refl _ _ eq_refl eq_refl);
    repeat constructor.
Defined.

(** C1, as stated, fails when a step of the batch loop raises: the head
    rejects the batch, the error leaves [evaluate] before the loop that
    recovers the state, and the backbone stays in inference mode. *)
Lemma evaluate_error_keeps_inference_mode :
  let out := evaluate (Some Examples.backbone) Examples.bad_loader 8
               (Some Examples.strict_head) None "pck"%string false (Some tt) 50 true true
               Examples.world0 in
  snd out = Raise RuntimeError /\
  training Examples.world0 !!! 0%nat = true /\
  training (fst out) !!! 0%nat = false /\
  filter (fun e => is_train e = true) (trace (fst out)) = [].
Proof. vm_compute. repeat split; reflexivity. Qed.

(** The same head passed as both heads is one object: its second snapshot is
    taken in inference mode, and the release leaves it there. *)
Lemma evaluate_same_head_twice :
  let out := evaluate (Some Examples.backbone) Examples.loader 8
               (Some Examples.strict_head) (Some Examples.strict_head)
               "pck"%string false (Some tt) 50 true true Examples.world0 in
  snd out = Ok ((2 # 2)%Q, (2 # 2)%Q) /\
  training Examples.world0 !!! 1%nat = true /\
  training (fst out) !!! 1%nat = false.
Proof. vm_compute. repeat split; reflexivity. Qed.

(** Distinct objects are not enough: with the head nested in the backbone,
    [base_net.eval()] has switched the head before its mode is saved, and the
    last [net.train(False)] leaves it in inference mode on a normal return. *)
Lemma evaluate_nested_head :
  let out := evaluate (Some Examples.parent_backbone) Examples.loader 8
               (Some Examples.strict_head) None "pck"%string false (Some tt) 50 true true
               Examples.world0 in
  snd out = Ok ((2 # 2)%Q, (2 # 2)%Q) /\
  net_id Examples.strict_head ∈ submodules Examples.parent_backbone /\
  training Examples.world0 !!! net_id Examples.strict_head = true /\
  training (fst out) !!! net_id Examples.strict_head = false.
Proof.
  cbv zeta. split; [vm_compute; reflexivity|]. split; [apply list_elem_of_here|].
  split; vm_compute; reflexivity.
Qed.

Lemma evaluate_restores_modes_witness :
  let out := evaluate (Some Examples.backbone) Examples.loader 8
               (Some Examples.strict_head) None "pck"%string false (Some tt) 50 true true
               Examples.mixed_world in
  (forall net, net ∈ participants Examples.backbone (Some Examples.strict_head) None ->
     training (fst out) !!! net_id net = training Examples.mixed_world !!! net_id net) /\
  (forall net id, net ∈ participants Examples.backbone (Some Examples.strict_head) None ->
     id ∈ submodules net ->
     training (fst out) !!! id = training Examples.mixed_world !!! net_id net) /\
  filter (fun e => is_train e = true) (trace (fst out)) =
    filter (fun e => is_train e = true) (trace Examples.mixed_world)
    ++ ((fun net => EvTrain (net_id net) (training Examples.mixed_world !!! net_id net))
          <$> participants Examples.backbone (Some Examples.strict_head) None).
Proof.
  cbv zeta.
  apply (evaluate_restores_modes Examples.backbone Examples.loader 8
           (Some Examples.strict_head) None "pck"%string false (Some tt) 50 true true
           Examples.mixed_world _ ((2 # 2)%Q, (2 # 2)%Q)).
  - vm_compute. reflexivity.
  - change (NoDup [0%nat; 1%nat]). apply NoDup_cons. split; [|apply NoDup_singleton].
    intros H%list_elem_of_singleton. discriminate H.
Defined.

Lemma evaluate_result_witness :
  exists base per,
    Some Examples.backbone = Some base /\
    Forall2 (fun b r => batch_counts base (opt_list (Some Examples.strict_head) ++ opt_list None)
                          8 b = Ok r)
            (batches Examples.loader) per /\
    Forall (fun r => length (snd r) = length thresholds) per /\
    (forall k b r i t, batches Examples.loader !! k = Some b -> per !! k = Some r ->
       thresholds !! i = Some t ->
       exists gt p, slice_last2 (gt_kpts b) = Ok gt /\
                    PCK (fst r) gt 8 t = Ok (p, count_at i r)) /\
    let total := Qsum (keypoints_of <$> per) in
    ~ (total == 0)%Q /\
    ((2 # 2) == Qsum (count_at 5 <$> per) / total)%Q /\
    ((2 # 2) == Qsum (count_at 20 <$> per) / total)%Q.
Proof.
  apply (proj2 (evaluate_result (Some Examples.backbone) Examples.loader 8
           (Some Examples.strict_head) None "pck"%string false (Some tt) 50 true true
           Examples.world0 (2 # 2)%Q (2 # 2)%Q eq_refl)).
Defined.

(** * Further facts *)

Section MetricMore.

Lemma count_true_le_length (l : list bool) : (count_true l <= length l)%nat.
Proof. unfold count_true. apply length_filter. Qed.


Lemma count_true_none (l : list bool) : Forall (fun b => b = false) l -> count_true l = 0%nat.
Proof.
  unfold count_true. induction 1 as [|b l Hb _ IH]; [done|].
  rewrite filter_cons_False; [done|]. rewrite Hb. discriminate.
Qed.

(** What [PCK] does on operands of one shape (N, C, K). *)
Lemma PCK_same_shape (pred gt : tensor) (L alpha : Q) (N C K : nat) :
  shape pred = [N; C; K] -> shape gt = [N; C; K] ->
  PCK pred gt L alpha =
  let dis := Qsum <$> chunks (N * C) K ((fun x => x ^ 2)%Q <$> zip_with Qminus (data pred) (data gt)) in
  let nkpt := Qnat (count_true ((fun d => sqrt_lt d (alpha * L)) <$> dis)) in
  if (N * C =? 0)%nat then Raise ZeroDivisionError
  else Ok ((nkpt / Qnat (N * C))%Q, nkpt).
Proof.
  intros Hp Hg. unfold PCK, elementwise. rewrite Hp, Hg, decide_True by done.
  cbn [bind pointwise shape data sum_dim2 numel prod_shape foldr requires_grad].
  replace (N * (C * 1))%nat with (N * C)%nat by lia. reflexivity.
Qed.

(** When [PCK] returns, its operands have one shape of three axes with at
    least one keypoint. *)
Lemma PCK_Ok_shape (pred gt : tensor) (L alpha : Q) (r : Q * Q) :
  PCK pred gt L alpha = Ok r ->
  exists N C K, shape pred = [N; C; K] /\ shape gt = [N; C; K] /\ (N * C <> 0)%nat.
Proof.
  unfold PCK, elementwise. destruct (decide (shape pred = shape gt)) as [E|_].
  2: { by destruct (broadcastable _ _). }
  cbn [bind pointwise shape data requires_grad]. unfold sum_dim2. cbn [shape].
  destruct (shape pred) as [|N [|C [|K [|? ?]]]] eqn:Hs; try done.
  cbn [bind pointwise shape data requires_grad numel prod_shape foldr].
  replace (N * (C * 1))%nat with (N * C)%nat by lia.
  destruct (N * C =? 0)%nat eqn:Hz; [discriminate|]. intros _.
  apply Nat.eqb_neq in Hz. exists N, C, K. by rewrite <- E.
Qed.

(** X1. On operands of one shape (N, C, K) with [N * C > 0], [PCK]
    returns a count that is a whole number between 0 and [N * C], and the
    fraction of that count over [N * C], which lies between 0 and 1. *)
Theorem PCK_range (pred gt : tensor) (L alpha : Q) (N C K : nat) :
  shape pred = [N; C; K] -> shape gt = [N; C; K] -> (0 < N * C)%nat ->
  exists k : nat,
    PCK pred gt L alpha = Ok ((Qnat k / Qnat (N * C))%Q, Qnat k) /\
    (k <= N * C)%nat /\
    (0 <= Qnat k / Qnat (N * C))%Q /\ (Qnat k / Qnat (N * C) <= 1)%Q.
Proof.
  intros Hp Hg Hnz. rewrite (PCK_same_shape _ _ _ _ N C K Hp Hg). cbv zeta.
  assert (Hz : (N * C =? 0)%nat = false) by (apply Nat.eqb_neq; lia). rewrite Hz.
  eexists. split; [reflexivity|].
  assert (Hk : (count_true ((fun d => sqrt_lt d (alpha * L)) <$>
                  (Qsum <$> chunks (N * C) K
                     ((fun x => x ^ 2)%Q <$> zip_with Qminus (data pred) (data gt))))
                <= N * C)%nat).
  { etransitivity; [apply count_true_le_length|].
    by rewrite !length_fmap, length_chunks. }
  split; [exact Hk|].
  assert (0 < Qnat (N * C))%Q by (apply Qnat_pos; lia).
  split.
  - apply Qle_shift_div_l; [done|]. rewrite Qmult_0_l. apply Qnat_nonneg.
  - apply Qle_shift_div_r; [done|]. rewrite Qmult_1_l. by apply Qnat_le.
Qed.

(** X2. On operands of one shape (N, C, K) without a keypoint
    ([N * C = 0]) [PCK] raises [ZeroDivisionError]: the fraction divides by
    [dis.numel()]. *)
Theorem PCK_no_keypoints (pred gt : tensor) (L alpha : Q) (N C K : nat) :
  shape pred = [N; C; K] -> shape gt = [N; C; K] -> (N * C = 0)%nat ->
  PCK pred gt L alpha = Raise ZeroDivisionError.
Proof.
  intros Hp Hg Hz. rewrite (PCK_same_shape _ _ _ _ N C K Hp Hg). cbv zeta.
  by rewrite Hz.
Qed.

Lemma sqrt_lt_nonpos (d t : Q) : (t <= 0)%Q -> sqrt_lt d t = false.
Proof.
  intros Ht. unfold sqrt_lt. apply andb_false_iff. left. by apply Qltb_ge.
Qed.

(** X3. With a tolerance [alpha * img_side_len] that is zero or negative
    [PCK] counts no keypoint, exact predictions included: the comparison
    [dis < norm_dis] is strict. *)
Theorem PCK_zero_tolerance (pred gt : tensor) (L alpha p n : Q) :
  (alpha * L <= 0)%Q ->
  PCK pred gt L alpha = Ok (p, n) -> n = 0%Q /\ (p == 0)%Q.
Proof.
  intros Ht H. destruct (PCK_Ok_shape _ _ _ _ _ H) as (N & C & K & Hp & Hg & Hnz).
  rewrite (PCK_same_shape _ _ _ _ N C K Hp Hg) in H. cbv zeta in H.
  apply Nat.eqb_neq in Hnz as Hz. rewrite Hz in H. injection H as <- <-.
  rewrite count_true_none.
  - split; [done|]. reflexivity.
  - apply Forall_fmap, Forall_forall. intros d _. by apply sqrt_lt_nonpos.
Qed.

Lemma Forall_take_drop {A} (P : A -> Prop) (l : list A) (n k : nat) :
  Forall P l -> Forall P (take k (drop n l)).
Proof. intros H. by apply Forall_take, Forall_drop. Qed.





Lemma compatible_rev_sym (a b : list nat) : compatible_rev a b = compatible_rev b a.
Proof.
  revert b. induction a as [|x a IH]; intros [|y b]; simpl; try done.
  rewrite IH, (Nat.eqb_sym x y). by destruct (y =? x)%nat, (x =? 1)%nat, (y =? 1)%nat.
Qed.

Lemma Qltb_proper (x y t u : Q) : (x == y)%Q -> (t == u)%Q -> Qltb x t = Qltb y u.
Proof.
  intros Hxy Htu. destruct (Qltb y u) eqn:E.
  - apply Qltb_lt. apply Qltb_lt in E. by rewrite Hxy, Htu.
  - apply Qltb_ge. apply Qltb_ge in E. by rewrite Hxy, Htu.
Qed.

Lemma Qsum_proper (l1 l2 : list Q) : Forall2 Qeq l1 l2 -> (Qsum l1 == Qsum l2)%Q.
Proof.
  induction 1 as [|x y l1 l2 Hxy _ IH]; [reflexivity|]. by rewrite !Qsum_cons, Hxy, IH.
Qed.

Lemma chunks_proper (n k : nat) (l1 l2 : list Q) :
  Forall2 Qeq l1 l2 -> Forall2 (Forall2 Qeq) (chunks n k l1) (chunks n k l2).
Proof.
  revert l1 l2. induction n as [|n IH]; intros l1 l2 H; simpl; constructor.
  - by apply Forall2_take.
  - apply IH. by apply Forall2_drop.
Qed.

Lemma squared_difference_sym (a b : list Q) :
  Forall2 Qeq ((fun x => x ^ 2)%Q <$> zip_with Qminus a b)
              ((fun x => x ^ 2)%Q <$> zip_with Qminus b a).
Proof.
  revert b. induction a as [|x a IH]; intros [|y b]; csimpl; constructor.
  - simpl. ring.
  - apply IH.
Qed.

Lemma within_proper (t : Q) (d1 d2 : list (list Q)) :
  Forall2 (Forall2 Qeq) d1 d2 ->
  (fun d => sqrt_lt d t) <$> (Qsum <$> d1) = (fun d => sqrt_lt d t) <$> (Qsum <$> d2).
Proof.
  induction 1 as [|c1 c2 d1 d2 Hc _ IH]; csimpl; [done|].
  rewrite IH. f_equal. unfold sqrt_lt. f_equal.
  apply Qltb_proper; [by apply Qsum_proper|reflexivity].
Qed.

(** X5. [PCK] does not tell the prediction from the ground truth: swapping
    them gives the same outcome, errors included. *)
Theorem PCK_symmetric (pred gt : tensor) (L alpha : Q) :
  PCK pred gt L alpha = PCK gt pred L alpha.
Proof.
  destruct (decide (shape pred = shape gt)) as [E|Hne].
  - destruct (shape pred) as [|N [|C [|K rest]]] eqn:Hs.
    1-3: unfold PCK, elementwise; rewrite <- E, Hs, !decide_True by done;
         cbn [bind pointwise shape data requires_grad sum_dim2]; reflexivity.
    destruct rest as [|? ?].
    + rewrite (PCK_same_shape pred gt L alpha N C K), (PCK_same_shape gt pred L alpha N C K)
        by done.
      cbv zeta.
      rewrite (within_proper (alpha * L) _ _
                 (chunks_proper (N * C) K _ _ (squared_difference_sym (data pred) (data gt)))).
      reflexivity.
    + unfold PCK, elementwise. rewrite <- E, Hs, !decide_True by done.
      cbn [bind pointwise shape data requires_grad sum_dim2]. reflexivity.
  - unfold PCK, elementwise. rewrite !decide_False by done.
    unfold broadcastable. rewrite (compatible_rev_sym (rev (shape gt))).
    by destruct (compatible_rev _ _).
Qed.

Lemma PCK_error_alpha (pred gt : tensor) (L a1 a2 : Q) (e : exn) :
  PCK pred gt L a1 = Raise e -> PCK pred gt L a2 = Raise e.
Proof.
  unfold PCK. destruct (elementwise Qminus pred gt) as [d|]; [|done]. cbn [bind].
  destruct (sum_dim2 _) as [dis|]; [|done]. cbn [bind].
  by destruct (numel dis =? 0)%nat.
Qed.

(** X6. [PCK_curve_pnts] on an empty sweep returns the empty list without
    looking at its operands; on any other sweep it raises as soon as [PCK]
    raises at one of its tolerances; and when it returns, its list has one
    entry per tolerance, the count of [PCK] at that tolerance, in order. *)
Theorem PCK_curve_pnts_outcome (sp : list Q) (pred gt : tensor) (L : Q) :
  (sp = [] -> PCK_curve_pnts sp pred gt L = Ok []) /\
  (forall a e, a ∈ sp -> PCK pred gt L a = Raise e ->
     PCK_curve_pnts sp pred gt L = Raise e) /\
  (forall nkpts, PCK_curve_pnts sp pred gt L = Ok nkpts ->
     length nkpts = length sp /\
     forall i a, sp !! i = Some a ->
       exists p n, PCK pred gt L a = Ok (p, n) /\ nkpts !! i = Some n).
Proof.
  split; [by intros ->|]. split.
  - intros a e Hin Ha. destruct sp as [|a0 sp]; [by apply elem_of_nil in Hin|].
    unfold PCK_curve_pnts. cbn [mapM].
    by rewrite (PCK_error_alpha _ _ _ a a0 e Ha).
  - intros nkpts H. split; [by apply mapM_length in H|].
    intros i a Ha. unfold PCK_curve_pnts in H.
    destruct (mapM_lookup_l _ _ _ _ _ H Ha) as (n & Hn & Hp).
    destruct (PCK pred gt L a) as [[p n']|]; [|done]. cbn in Hp. injection Hp as ->.
    by exists p, n.
Qed.

End MetricMore.

Section KeypointsMore.



(** X8. On a batch with at least one image and one channel whose maps have
    no element ([H * W = 0]) [get_kpts] raises [ValueError], from
    [m.argmax()]. *)
Theorem get_kpts_empty_channel (maps : tensor) (B C H W : nat) (img_h img_w : Q) :
  shape maps = [B; C; H; W] -> (1 <= B)%nat -> (1 <= C)%nat -> (H * W = 0)%nat ->
  get_kpts_list maps img_h img_w = Raise ValueError /\
  get_kpts maps img_h img_w = Raise ValueError.
Proof.
  intros Hs HB HC HW.
  assert (get_kpts_list maps img_h img_w = Raise ValueError) as Hl.
  { unfold get_kpts_list, unbind. rewrite Hs. cbn [bind prod_shape foldr].
    destruct B as [|B]; [lia|]. destruct C as [|C]; [lia|].
    cbn [chunks fmap list_fmap mapM shape bind data prod_shape foldr].
    replace (H * (W * 1))%nat with 0%nat by lia.
    cbn [take chunks fmap list_fmap mapM bind]. unfold kpt_of_map at 1. cbn [data take].
    rewrite take_0. reflexivity. }
  split; [done|]. unfold get_kpts. by rewrite Hl.
Qed.

(** X9. On a batch of shape (B, C, H, W) with [H, W >= 1] and a target
    size between 0 and 2^62, for which every coordinate fits a 64-bit
    integer, [get_kpts] returns a tensor that does not track gradients, of
    shape (B, C, 2); but of shape (B, 0) when there is no channel and (0,)
    when there is no image, where [np.array] sees no inner list. *)
Theorem get_kpts_shape (maps : tensor) (B C H W : nat) (img_h img_w : Q) :
  shape maps = [B; C; H; W] -> tensor_wf maps -> (1 <= H)%nat -> (1 <= W)%nat ->
  (0 <= img_h)%Q -> (img_h <= inject_Z (2 ^ 62))%Q ->
  (0 <= img_w)%Q -> (img_w <= inject_Z (2 ^ 62))%Q ->
  exists kpts,
    get_kpts maps img_h img_w = Ok kpts /\
    tensor_wf kpts /\ requires_grad kpts = false /\
    shape kpts = match B, C with
                 | O, _ => [0%nat]
                 | _, O => [B; 0%nat]
                 | _, _ => [B; C; 2%nat]
                 end.
Proof.
  intros Hs Hwf HH HW _ _ _ _.
  destruct (get_kpts_list_spec maps B C H W img_h img_w Hs Hwf HH HW)
    as (all_kpts & Hall & Hlen & Hspec).
  exists (np_array all_kpts). split; [by unfold get_kpts; rewrite Hall|].
  assert (Hrows : Forall (fun kpts => length kpts = C) all_kpts).
  { apply Forall_forall. intros kpts [b Hb]%list_elem_of_lookup. by apply (Hspec b). }
  destruct all_kpts as [|kpts all_kpts].
  { simpl in Hlen. subst B. done. }
  apply Forall_cons in Hrows as Hrows'. destruct Hrows' as [Hk _].
  destruct B as [|B]; [done|]. destruct kpts as [|kpt kpts].
  { simpl in Hk. subst C. unfold np_array. rewrite Hlen.
    split; [|done]. unfold tensor_wf, numel. cbn. lia. }
  destruct C as [|C]; [done|].
  unfold np_array. rewrite Hlen, Hk. split; [|done].
  unfold tensor_wf, numel. cbn [data shape prod_shape foldr].
  rewrite (length_concat_uniform _ (S C * 2)).
  - rewrite length_fmap, Hlen. lia.
  - apply Forall_fmap. eapply Forall_impl; [exact Hrows|]. intros l Hl. simpl.
    rewrite (length_concat_uniform _ 2).
    + by rewrite length_fmap, Hl.
    + apply Forall_fmap, Forall_forall. done.
Qed.

Lemma argmax_from_fmap (f : Q -> Q) (l : list Q) (best : Q) (besti i : nat) :
  (forall x y, Qltb (f x) (f y) = Qltb x y) ->
  argmax_from (f best) besti i (f <$> l) = argmax_from best besti i l.
Proof.
  intros Hf. revert best besti i. induction l as [|x l IH]; intros best besti i; [done|].
  csimpl. rewrite Hf. destruct (Qltb best x); apply IH.
Qed.

Lemma argmax_fmap (f : Q -> Q) (l : list Q) :
  (forall x y, Qltb (f x) (f y) = Qltb x y) -> argmax (f <$> l) = argmax l.
Proof.
  intros Hf. destruct l as [|x l]; [done|]. csimpl. by rewrite argmax_from_fmap.
Qed.

Lemma chunks_fmap (f : Q -> Q) (n k : nat) (l : list Q) :
  chunks n k (f <$> l) = (fmap (M:=list) f) <$> chunks n k l.
Proof.
  revert l. induction n as [|n IH]; intros l; [done|].
  csimpl. by rewrite <- fmap_take, <- fmap_drop, IH.
Qed.

Lemma mapM_fmap {A B C} (g : B -> result C) (h : A -> B) (l : list A) :
  mapM g (h <$> l) = mapM (fun x => g (h x)) l.
Proof. induction l as [|x l IH]; [done|]. csimpl. by rewrite IH. Qed.

Lemma mapM_ext {A B} (f g : A -> result B) (l : list A) :
  (forall x, f x = g x) -> mapM f l = mapM g l.
Proof. intros H. induction l as [|x l IH]; [done|]. simpl. by rewrite H, IH. Qed.

Lemma kpt_of_map_fmap (f : Q -> Q) (img_h img_w : Q) (s : list nat) (d : list Q) (rg : bool) :
  (forall x y, Qltb (f x) (f y) = Qltb x y) ->
  kpt_of_map img_h img_w (Tensor s (f <$> d) rg) = kpt_of_map img_h img_w (Tensor s d rg).
Proof. intros Hf. unfold kpt_of_map. cbn [data shape]. by rewrite argmax_fmap. Qed.

(** X10. [get_kpts] depends on the order of the responses only: applying
    to every response a function that keeps the strict order (a positive
    scale, a shift) leaves its outcome as it was. *)
Theorem get_kpts_order_preserving (f : Q -> Q) (maps : tensor) (img_h img_w : Q) :
  (forall x y, Qltb (f x) (f y) = Qltb x y) ->
  get_kpts (pointwise f maps) img_h img_w = get_kpts maps img_h img_w.
Proof.
  intros Hf. unfold get_kpts. f_equal.
  unfold get_kpts_list, unbind, pointwise. cbn [shape data requires_grad].
  destruct (shape maps) as [|B rest]; [done|]. cbn [bind].
  rewrite chunks_fmap, <- !list_fmap_compose, !mapM_fmap.
  apply mapM_ext. intros d. cbn [compose shape data requires_grad].
  destruct rest as [|C rest']; [done|]. cbn [bind].
  rewrite chunks_fmap, <- !list_fmap_compose, !mapM_fmap.
  apply mapM_ext. intros d'. cbn [compose]. by apply kpt_of_map_fmap.
Qed.

Lemma halving_order (x y : Q) : Qltb (x / 2) (y / 2) = Qltb x y.
Proof.
  destruct (Qltb x y) eqn:E.
  - apply Qltb_lt. apply Qltb_lt in E. unfold Qdiv. change (/ 2)%Q with (1 # 2)%Q. lra.
  - apply Qltb_ge. apply Qltb_ge in E. unfold Qdiv. change (/ 2)%Q with (1 # 2)%Q. lra.
Qed.

End KeypointsMore.

Section LossMore.

Lemma contribution_swap (beta x y : Q) : contribution beta x y = contribution beta y x.
Proof. unfold contribution. by rewrite (Qabs_Qminus x y). Qed.

Lemma zip_with_contribution_swap (beta : Q) (a b : list Q) :
  zip_with (contribution beta) a b = zip_with (contribution beta) b a.
Proof.
  revert b. induction a as [|x a IH]; intros [|y b]; csimpl; try done.
  by rewrite contribution_swap, IH.
Qed.

Lemma smooth_l1_loss_swap (input target : tensor) (beta : Q) (size_average : bool) :
  smooth_l1_loss input target beta size_average =
  smooth_l1_loss target input beta size_average.
Proof.
  destruct (decide (shape input = shape target)) as [E|Hne].
  - rewrite (smooth_l1_loss_data input target) by done.
    rewrite (smooth_l1_loss_data target input) by done. cbv zeta.
    rewrite zip_with_contribution_swap, E.
    unfold tmean, tsum, numel. cbn [shape data]. reflexivity.
  - unfold smooth_l1_loss, elementwise. rewrite !decide_False by done.
    unfold broadcastable. rewrite (compatible_rev_sym (rev (shape target))).
    by destruct (compatible_rev _ _).
Qed.

(** X11. [smooth_l1_loss] is symmetric in its two tensors, for every
    [beta] and both aggregations, errors included. *)
Theorem smooth_l1_loss_symmetric (input target : tensor) (beta : Q) (size_average : bool) :
  smooth_l1_loss input target beta size_average =
  smooth_l1_loss target input beta size_average.
Proof. apply smooth_l1_loss_swap. Qed.

Lemma contribution_bounds (beta x y : Q) :
  (0 < beta)%Q ->
  (Qabs (x - y) - 0.5 * beta <= contribution beta x y)%Q /\
  (contribution beta x y <= Qabs (x - y))%Q.
Proof.
  intros Hb. unfold contribution. cbv zeta.
  pose proof (Qabs_nonneg (x - y)) as Hn. set (n := Qabs (x - y)) in *.
  destruct (Qltb n beta) eqn:E.
  - apply Qltb_lt in E. split.
    + apply Qle_shift_div_l; [done|]. simpl. nra.
    + apply Qle_shift_div_r; [done|]. simpl. nra.
  - apply Qltb_ge in E. split; lra.
Qed.

Lemma Qsum_zip_with_le (f g : Q -> Q -> Q) (c : Q) (a b : list Q) :
  (forall x y, (f x y <= g x y + c)%Q) ->
  (Qsum (zip_with f a b) <= Qsum (zip_with g a b) + c * Qnat (length (zip_with g a b)))%Q.
Proof.
  intros H. revert b. induction a as [|x a IH]; intros [|y b]; csimpl.
  1-3: (cbn [Qsum foldr length]; change (Qnat 0) with 0%Q; lra).
  specialize (IH b). specialize (H x y).
  assert (Hs : (Qnat (S (length (zip_with g a b))) == Qnat (length (zip_with g a b)) + 1)%Q).
  { unfold Qnat. rewrite Nat2Z.inj_succ, <- Z.add_1_r, inject_Z_plus. reflexivity. }
  rewrite Hs. nra.
Qed.

(** X12. Under the sum, for [beta > 0], the loss lies between the sum of
    absolute differences less [0.5 * beta] per element and the sum of
    absolute differences. *)
Theorem smooth_l1_loss_absolute_error (input target : tensor) (beta : Q) :
  shape input = shape target -> (0 < beta)%Q ->
  let abs_err := zip_with (fun x y => Qabs (x - y)) (data input) (data target) in
  exists s, smooth_l1_loss input target beta false = Ok (Num s) /\
    (Qsum abs_err - 0.5 * beta * Qnat (length abs_err) <= s)%Q /\
    (s <= Qsum abs_err)%Q.
Proof.
  intros Hs Hb abs_err. rewrite smooth_l1_loss_data by done. cbv zeta.
  eexists. split; [reflexivity|]. cbn [data]. split.
  - pose proof (Qsum_zip_with_le (fun x y => Qabs (x - y)) (contribution beta) (0.5 * beta)
                  (data input) (data target)) as H.
    assert (Hlen : length (zip_with (contribution beta) (data input) (data target))
                   = length abs_err) by (unfold abs_err; by rewrite !length_zip_with).
    rewrite Hlen in H. fold abs_err in H.
    assert (Qsum abs_err <= Qsum (zip_with (contribution beta) (data input) (data target))
            + 0.5 * beta * Qnat (length abs_err))%Q; [|lra].
    apply H. intros x y. destruct (contribution_bounds beta x y Hb). lra.
  - pose proof (Qsum_zip_with_le (contribution beta) (fun x y => Qabs (x - y)) 0
                  (data input) (data target)) as H.
    fold abs_err in H.
    assert (Qsum (zip_with (contribution beta) (data input) (data target))
            <= Qsum abs_err + 0 * Qnat (length abs_err))%Q; [|lra].
    apply H. intros x y. destruct (contribution_bounds beta x y Hb). lra.
Qed.

Lemma contribution_equal (beta x y : Q) :
  (0 <= beta)%Q -> (x == y)%Q -> (contribution beta x y == 0)%Q.
Proof.
  intros Hb Hxy. unfold contribution. cbv zeta.
  assert (Hn : (Qabs (x - y) == 0)%Q).
  { assert (Hx : (x - y == 0)%Q) by lra. rewrite Hx. reflexivity. }
  destruct (Qltb (Qabs (x - y)) beta) eqn:E.
  - rewrite Hn. unfold Qdiv. ring.
  - apply Qltb_ge in E. lra.
Qed.

(** X13. For [beta >= 0] the loss of two tensors of one shape that are
    equal element by element is zero (under the mean, for tensors that have
    an element). *)
Theorem smooth_l1_loss_equal_zero (input target : tensor) (beta : Q) (size_average : bool) :
  shape input = shape target -> Forall2 Qeq (data input) (data target) ->
  (0 <= beta)%Q -> (size_average = true -> numel input <> 0%nat) ->
  exists q, smooth_l1_loss input target beta size_average = Ok (Num q) /\ (q == 0)%Q.
Proof.
  intros Hs Heq Hb Hne. rewrite smooth_l1_loss_data by done. cbv zeta.
  set (cs := zip_with (contribution beta) (data input) (data target)).
  assert (Hz : (Qsum cs == 0)%Q).
  { unfold cs. clear cs Hs Hne. induction Heq as [|x y a b Hxy _ IH]; [reflexivity|].
    cbn [zip_with]. rewrite Qsum_cons, IH, contribution_equal by done. ring. }
  destruct size_average.
  - unfold tmean, numel. cbn [shape data]. fold (numel input).
    destruct (numel input =? 0)%nat eqn:E.
    { apply Nat.eqb_eq in E. by destruct Hne. }
    eexists. split; [reflexivity|]. fold cs. rewrite Hz. unfold Qdiv. ring.
  - eexists. split; [reflexivity|]. exact Hz.
Qed.

End LossMore.

Section DiscrepancyMore.

Context {X : Type}.

Lemma ssub_swap (a b : scalar) : sabs (ssub a b) = sabs (ssub b a).
Proof. destruct a, b; try done. cbn [sabs ssub]. by rewrite Qabs_Qminus. Qed.

Lemma cat0_swap (a b u : tensor) :
  cat0 a b = Ok u ->
  data u = data a ++ data b /\ requires_grad u = requires_grad a || requires_grad b /\
  exists u', cat0 b a = Ok u' /\ data u' = data b ++ data a.
Proof.
  unfold cat0.
  destruct (decide (shape a = [0%nat])) as [Ea|Na]; destruct (decide (shape b = [0%nat])) as [Eb|Nb].
  1-3: intros [= <-]; cbn; eauto.
  destruct (shape a) as [|na ra]; [done|]. destruct (shape b) as [|nb rb]; [done|].
  destruct (decide (ra = rb)) as [->|]; [|done]. intros [= <-]. cbn.
  rewrite decide_True by done. eauto.
Qed.

(** X14. With a distance function that is symmetric, as the default one
    is, swapping the two heads leaves what [discrepancy] returns as it was. *)
Theorem discrepancy_swap_heads (source_data target_data : X)
    (base_net : X -> result tensor) (h1 h2 : tensor -> result tensor)
    (criterion : tensor -> tensor -> result scalar) (r : tensor * scalar) :
  (forall a b, criterion a b = criterion b a) ->
  discrepancy source_data target_data base_net h1 h2 criterion = Ok r ->
  discrepancy source_data target_data base_net h2 h1 criterion = Ok r.
Proof.
  intros Hsym. unfold discrepancy.
  destruct (base_net source_data) as [sf|]; [|done]. cbn [bind].
  destruct (base_net target_data) as [tf|]; [|done]. cbn [bind].
  destruct (cat0 sf tf) as [u|]; [|done]. cbn [bind].
  destruct (h1 sf) as [s1|]; [|done]. cbn [bind].
  destruct (h2 sf) as [s2|]; [|done]. cbn [bind].
  destruct (h1 tf) as [t1|]; [|done]. cbn [bind].
  destruct (h2 tf) as [t2|]; [|done]. cbn [bind].
  by rewrite (Hsym s2 s1), (Hsym t2 t1).
Qed.

(** X15. Swapping the source and the target batch leaves the scalar that
    [discrepancy] returns as it was, and appends the features in the other
    order. *)
Theorem discrepancy_swap_domains (source_data target_data : X)
    (base_net : X -> result tensor) (h1 h2 : tensor -> result tensor)
    (criterion : tensor -> tensor -> result scalar) (union_feat : tensor) (d : scalar) :
  discrepancy source_data target_data base_net h1 h2 criterion = Ok (union_feat, d) ->
  exists source_feat target_feat union_feat',
    base_net source_data = Ok source_feat /\ base_net target_data = Ok target_feat /\
    data union_feat = data source_feat ++ data target_feat /\
    data union_feat' = data target_feat ++ data source_feat /\
    discrepancy target_data source_data base_net h1 h2 criterion = Ok (union_feat', d).
Proof.
  unfold discrepancy.
  destruct (base_net source_data) as [sf|]; [|done]. cbn [bind].
  destruct (base_net target_data) as [tf|]; [|done]. cbn [bind].
  destruct (cat0 sf tf) as [u|] eqn:Hcat; [|done]. cbn [bind].
  destruct (cat0_swap _ _ _ Hcat) as (Hu & _ & u' & Hcat' & Hu').
  rewrite Hcat'. cbn [bind].
  destruct (h1 sf) as [s1|]; [|done]. cbn [bind].
  destruct (h2 sf) as [s2|]; [|done]. cbn [bind].
  destruct (h1 tf) as [t1|]; [|done]. cbn [bind].
  destruct (h2 tf) as [t2|]; [|done]. cbn [bind].
  destruct (criterion s1 s2) as [sd|]; [|done]. cbn [bind].
  destruct (criterion t1 t2) as [td|]; [|done]. cbn [bind].
  intros [= <- <-]. exists sf, tf, (detach u'). rewrite (ssub_swap td sd). done.
Qed.

End DiscrepancyMore.

Section EvaluateMore.

Variables (base : network) (loader : dataloader) (img : Q) (p1 p2 : option network).
Variables (status : string) (vis : bool) (logger : option unit) (di : Z).
Variables (show_gt is_target : bool).

Local Abbreviation nets := (participants base p1 p2).
Local Abbreviation run :=
  (evaluate_body base loader img p1 p2 status vis logger di show_gt is_target).
Local Abbreviation loop :=
  (batch_loop base loader img p1 p2 status vis di show_gt is_target).

(** [evaluate] after its assertions, by where it ends. *)
Lemma evaluate_body_run (w : world) :
  run w =
  match device base with
  | None => (w, Raise StopIteration)
  | Some _ =>
      match loop w with
      | (w3, Raise e) => (w3, Raise e)
      | (w3, Ok a) =>
          finish logger (if is_target then "tgt" else "src")%string status a (released base p1 p2 w w3)
      end
  end.
Proof.
  unfold released, batch_loop, loop_start, evaluate_body, participants.
  cbv zeta. destruct (device base) as [d|]; [|done].
  unfold bindM at 1. cbn [ret]. unfold bindM at 1. rewrite snapshot_loop.
  unfold bindM at 1. cbn [app].
  match goal with |- context [for_each (batches loader) ?f ?a ?w0] =>
    destruct (for_each (batches loader) f a w0) as [w3 [a'|e]] end; [|done].
  unfold bindM at 1. rewrite restore_loop. reflexivity.
Qed.

Lemma finish_eq (prefix : string) (a : acc) (w : world) :
  finish logger prefix status a w =
  match for_range (length (tot_nkpts a)) (div_at (tot_pnt a)) (tot_nkpts a) with
  | Raise e => (w, Raise e)
  | Ok tot =>
      match logger with
      | None => (World (training w) (trace w ++ [EvPlot thresholds tot]), Raise AttributeError)
      | Some _ =>
          (World (training w) (trace w ++ [EvPlot thresholds tot; EvFigure prefix status]),
           match tot !! 5%nat, last tot with
           | Some r1, Some r2 => Ok (r1, r2)
           | _, _ => Raise IndexError
           end)
      end
  end.
Proof.
  unfold finish, bindM, lift, emit.
  destruct (for_range _ _ _) as [tot|e]; [|done].
  destruct logger as [l|]; [|done]. cbn [training trace]. rewrite <- app_assoc.
  by destruct (tot !! 5%nat), (last tot).
Qed.

Lemma finish_run (prefix : string) (a : acc) (w : world) :
  snd (finish logger prefix status a w) = scores logger a /\
  training (fst (finish logger prefix status a w)) = training w /\
  exists tail, trace (fst (finish logger prefix status a w)) = trace w ++ tail /\
               Forall (fun e => is_train e = false) tail.
Proof.
  rewrite finish_eq. unfold scores.
  destruct (for_range _ _ _) as [tot|e]; cbn [bind].
  2: { do 2 (split; [done|]). exists []. by rewrite app_nil_r. }
  destruct logger as [l|]; cbn [fst snd training trace].
  - do 2 (split; [done|]). eexists. split; [done|]. by repeat constructor.
  - do 2 (split; [done|]). eexists. split; [done|]. by repeat constructor.
Qed.


Lemma evaluate_eq (w : world) :
  evaluate (Some base) loader img p1 p2 status vis logger di show_gt is_target w =
  match check_args (Some base) p1 p2 with
  | Ok _ => run w
  | Raise e => (w, Raise e)
  end.
Proof. unfold evaluate, bindM, lift. by destruct (check_args _ _ _). Qed.

Lemma loop_start_inference (w : world) : inference nets (loop_start base p1 p2 w).
Proof.
  intros net Hin. unfold loop_start. cbn [training].
  by apply eval_all_participant.
Qed.

Lemma loop_quiet (w w3 : world) (r : result acc) :
  loop w = (w3, r) ->
  training w3 = eval_all (training w) nets /\
  filter (fun e => is_train e = true) (trace w3) = filter (fun e => is_train e = true) (trace w).
Proof.
  intros H. apply quiet_for_each in H as [Ht Hf]; [|intros; apply quiet_batch_body].
  split; [done|]. rewrite Hf. unfold loop_start. cbn [trace].
  by rewrite filter_app, filter_train_evals, app_nil_r.
Qed.

Lemma evaluate_None_logger (base_net : option network) (w : world) (r : Q * Q) :
  snd (evaluate base_net loader img p1 p2 status vis None di show_gt is_target w) <> Ok r.
Proof.
  destruct base_net as [b|]; [|done].
  unfold evaluate, bindM, lift. destruct (check_args _ _ _); [|done].
  unfold evaluate_body. cbv zeta.
  unfold bindM at 1. destruct (device b); [|done]. cbn [ret].
  unfold bindM at 1. rewrite snapshot_loop.
  unfold bindM at 1. destruct (for_each (batches loader) _ _ _) as [w3 [a3|e]]; [|done].
  unfold bindM at 1. rewrite restore_loop.
  unfold bindM at 1, lift. destruct (for_range _ _ _); [|done].
  by unfold bindM, emit, raise.
Qed.

(** X16. With [logger=None], its default, [evaluate] always raises: at
    the latest at [logger.add_figure], after the whole loop has run. *)
Theorem evaluate_needs_logger (base_net : option network) (w : world) :
  exists e,
    snd (evaluate base_net loader img p1 p2 status vis None di show_gt is_target w) = Raise e.
Proof.
  pose proof (evaluate_None_logger base_net w) as H.
  destruct (snd _) as [r|e]; [by destruct (H r)|by exists e].
Qed.


(** X17. On a loader without batches, with valid arguments, [evaluate]
    raises [ZeroDivisionError] at the division by the total number of
    keypoints: after the modes have been recovered, with nothing in the trace
    but the switches.  For module trees that share no object every
    participant has its mode back and every object outside them is as it
    was. *)
Theorem evaluate_empty_loader (w : world) :
  batches loader = [] -> check_args (Some base) p1 p2 = Ok tt -> device base <> None ->
  evaluate (Some base) loader img p1 p2 status vis logger di show_gt is_target w =
    (released base p1 p2 w (loop_start base p1 p2 w), Raise ZeroDivisionError) /\
  trace (released base p1 p2 w (loop_start base p1 p2 w)) =
    trace w ++ ((fun net => EvEval (net_id net)) <$> nets)
            ++ ((fun sn => EvTrain (net_id (snd sn)) (fst sn))
                  <$> zip (snapshot (training w) nets) nets) /\
  (NoDup (nets ≫= modules) ->
   (forall net, net ∈ nets ->
      training (released base p1 p2 w (loop_start base p1 p2 w)) !!! net_id net
      = training w !!! net_id net) /\
   (forall id, id ∉ nets ≫= modules ->
      training (released base p1 p2 w (loop_start base p1 p2 w)) !!! id
      = training w !!! id)).
Proof.
  intros Hb Hargs Hdev. split; [|split].
  - rewrite evaluate_eq, Hargs, evaluate_body_run.
    destruct (device base) as [d|]; [|done].
    unfold batch_loop. rewrite Hb. cbn [for_each ret].
    rewrite finish_eq. reflexivity.
  - unfold released, loop_start. cbn [trace]. by rewrite <- app_assoc.
  - intros Hnd. unfold released, loop_start. cbn [training]. split.
    + intros net Hin. apply restore_modules; [done..|]. apply list_elem_of_here.
    + intros id Hid. by apply restore_others.
Qed.

(** X18. With a backbone that has no parameter, [evaluate] raises
    [StopIteration] at [next(base_net.parameters())] and leaves the world as
    it was: no network has been switched. *)
Theorem evaluate_no_parameters (w : world) :
  check_args (Some base) p1 p2 = Ok tt -> device base = None ->
  evaluate (Some base) loader img p1 p2 status vis logger di show_gt is_target w =
    (w, Raise StopIteration).
Proof.
  intros Hargs Hdev. rewrite evaluate_eq, Hargs, evaluate_body_run. by rewrite Hdev.
Qed.

(** X19. Whatever the outcome of [evaluate] on module trees that share no
    object, every object outside them is as it was, and either every
    participant has the mode it had before the call, or the call has raised
    and every participant, with every module nested in it, is in inference
    mode. *)
Theorem evaluate_modes_after (w : world) :
  NoDup (nets ≫= modules) ->
  let out := evaluate (Some base) loader img p1 p2 status vis logger di show_gt is_target w in
  (forall id, id ∉ nets ≫= modules -> training (fst out) !!! id = training w !!! id) /\
  ((forall net, net ∈ nets -> training (fst out) !!! net_id net = training w !!! net_id net) \/
   ((exists e, snd out = Raise e) /\
    forall net id, net ∈ nets -> id ∈ modules net -> training (fst out) !!! id = false)).
Proof.
  intros Hnd out. unfold out. rewrite evaluate_eq.
  destruct (check_args _ _ _) as [[]|]; [|by split; [|left]].
  rewrite evaluate_body_run. destruct (device base) as [d|]; [|by split; [|left]].
  destruct (loop w) as [w3 [a|e]] eqn:Hloop.
  - destruct (finish_run (if is_target then "tgt" else "src")%string a (released base p1 p2 w w3))
      as (_ & -> & _).
    apply loop_quiet in Hloop as [Ht _].
    unfold released. cbn [training]. rewrite Ht. split.
    + intros id Hid. by apply restore_others.
    + left. intros net Hin. apply restore_modules; [done..|]. apply list_elem_of_here.
  - cbn [fst snd]. apply loop_quiet in Hloop as [Ht _]. rewrite Ht. split.
    + intros id Hid. rewrite eval_all_lookup. by rewrite decide_False.
    + right. split; [by exists e|]. intros net id Hin Hid.
      by apply (eval_all_modules _ _ net).
Qed.

(** X20. When the same head object is passed as both heads, a normal
    return of [evaluate] leaves it in inference mode, whatever its mode was
    before: its second snapshot is taken after the first switch. *)
Theorem evaluate_head_twice (h : network) (w w' : world) (r : Q * Q) :
  p1 = Some h -> p2 = Some h ->
  evaluate (Some base) loader img p1 p2 status vis logger di show_gt is_target w = (w', Ok r) ->
  training w' !!! net_id h = false.
Proof.
  intros H1 H2 H. rewrite evaluate_eq in H. destruct (check_args _ _ _) as [[]|]; [|done].
  rewrite evaluate_body_run in H. destruct (device base) as [d|]; [|done].
  destruct (loop w) as [w3 [a|e]]; [|done].
  destruct (finish_run (if is_target then "tgt" else "src")%string a (released base p1 p2 w w3))
    as (_ & Ht & _).
  rewrite H in Ht. cbn [fst] in Ht. rewrite Ht.
  unfold released, participants. rewrite H1, H2.
  cbn [training opt_list app snapshot zip zip_with restore_all fst snd].
  rewrite set_flags_lookup, decide_True by apply list_elem_of_here.
  rewrite set_flags_lookup, decide_True by apply list_elem_of_here.
  done.
Qed.

Tactic Notation "step" hyp(H) "as" ident(a) ident(w) ident(H1) :=
  apply bindM_Ok in H as (a & w & H1 & H).

Lemma batch_body_zero_interval base' pred_nets prefix a b w w' a' :
  vis = true -> di = 0%Z ->
  batch_body base' pred_nets img status vis di show_gt prefix a b w <> (w', Ok a').
Proof.
  intros -> -> H. unfold batch_body in H.
  step H as feats w1 Hc. step H as heats w2 Hh. step H as kpts w3 Hk.
  step H as gt w4 Hgt. step H as nk w5 Hnk. step H as tot w6 Htot.
  step H as u w7 Hvis. discriminate Hvis.
Qed.

Lemma evaluate_Ok_interval (base_net : option network) (w : world) (r : Q * Q) :
  vis = true -> di = 0%Z ->
  snd (evaluate base_net loader img p1 p2 status vis logger di show_gt is_target w) <> Ok r.
Proof.
  intros Hvis Hdi. destruct base_net as [b|]; [|done].
  destruct (evaluate _ _ _ _ _ _ _ _ _ _ _ w) as [w' res] eqn:E. cbn [snd]. intros ->.
  apply evaluate_Some, evaluate_body_Ok in E. cbv zeta in E.
  destruct E as (w3 & a & tot & Hloop & _ & _ & Hdiv & _).
  destruct (batches loader) as [|b0 bs].
  - cbn [for_each ret] in Hloop. injection Hloop as _ <-. discriminate Hdiv.
  - cbn [for_each] in Hloop. apply bindM_Ok in Hloop as (a0 & w0 & Hb & _).
    by apply batch_body_zero_interval in Hb.
Qed.

(** X21. With [vis] on and [disp_interval = 0], [evaluate] always raises:
    at [idx % disp_interval] on the first batch that gets that far, or
    earlier. *)
Theorem evaluate_zero_interval (base_net : option network) (w : world) :
  vis = true -> di = 0%Z ->
  exists e,
    snd (evaluate base_net loader img p1 p2 status vis logger di show_gt is_target w)
      = Raise e.
Proof.
  intros Hvis Hdi. pose proof (evaluate_Ok_interval base_net w) as H.
  destruct (snd _) as [r|e]; [by destruct (H r)|by exists e].
Qed.

End EvaluateMore.

(** ** Outcomes that do not depend on the modes before the call *)

Section Steady.

Variable nets : list network.

Lemma inference_training (w w' : world) :
  training w' = training w -> inference nets w -> inference nets w'.
Proof. intros Ht H net Hin. rewrite Ht. by apply H. Qed.

Lemma steady_ret {A} (a : A) : steady nets (ret a).
Proof. by intros w w' _ _. Qed.

Lemma steady_raise {A} (e : exn) : steady nets (@raise A e).
Proof. by intros w w' _ _. Qed.

Lemma steady_lift {A} (r : result A) : steady nets (lift r).
Proof. by intros w w' _ _. Qed.

Lemma steady_emit (e : event) : steady nets (emit e).
Proof. by intros w w' _ _. Qed.

Lemma steady_bind {A B} (m : M A) (k : A -> M B) :
  quiet m -> steady nets m -> (forall a, steady nets (k a)) -> steady nets (bindM m k).
Proof.
  intros Hq Hm Hk w w' Hw Hw'. unfold bindM. specialize (Hm w w' Hw Hw').
  destruct (m w) as [w1 r1] eqn:E1. destruct (m w') as [w1' r1'] eqn:E1'.
  cbn [snd] in Hm. subst r1'. destruct r1 as [a|e]; [|done].
  apply Hk.
  - eapply inference_training; [|exact Hw]. by apply (Hq _ _ _ E1).
  - eapply inference_training; [|exact Hw']. by apply (Hq _ _ _ E1').
Qed.

Lemma steady_call (net : network) (x : tensor) : net ∈ nets -> steady nets (call net x).
Proof.
  intros Hin w w' Hw Hw'. unfold call, bindM, get_training, emit, lift. cbn.
  by rewrite (Hw net Hin), (Hw' net Hin).
Qed.

Lemma steady_for_each {A S} (l : list A) (body : S -> A -> M S) (s : S) :
  (forall s x, quiet (body s x)) -> (forall s x, steady nets (body s x)) ->
  steady nets (for_each l body s).
Proof.
  intros Hq Hs. revert s. induction l as [|x l IH]; intros s; cbn [for_each].
  - apply steady_ret.
  - apply steady_bind; [apply Hq|apply Hs|]. intros s'. apply IH.
Qed.

Lemma steady_visualize show_gt prefix status idx di b kpts :
  steady nets (visualize show_gt prefix status idx di b kpts).
Proof.
  unfold visualize.
  apply steady_bind; [apply quiet_lift|apply steady_lift|]. intros _.
  apply steady_bind.
  - destruct show_gt; [|apply quiet_ret].
    apply quiet_bind; [apply quiet_lift|]. intros _.
    apply quiet_bind; [apply quiet_lift|]. intros _. by apply quiet_emit.
  - destruct show_gt; [|apply steady_ret].
    apply steady_bind; [apply quiet_lift|apply steady_lift|]. intros _.
    apply steady_bind; [apply quiet_lift|apply steady_lift|]. intros _. apply steady_emit.
  - intros _. apply steady_bind; [apply quiet_lift|apply steady_lift|]. intros _.
    apply steady_emit.
Qed.

Lemma steady_batch_body base pred_nets img status vis di show_gt prefix a b :
  base ∈ nets -> (forall p, p ∈ pred_nets -> p ∈ nets) ->
  steady nets (batch_body base pred_nets img status vis di show_gt prefix a b).
Proof.
  intros Hb Hp. unfold batch_body.
  apply steady_bind; [apply quiet_call|by apply steady_call|]. intros feats.
  apply steady_bind.
  - destruct pred_nets as [|p0 [|p1 ?]]; [apply quiet_raise|apply quiet_call|].
    apply quiet_bind; [apply quiet_call|]. intros h0.
    apply quiet_bind; [apply quiet_call|]. intros h1.
    apply quiet_bind; [apply quiet_lift|]. intros s. apply quiet_ret.
  - destruct pred_nets as [|p0 [|p1 ?]]; [apply steady_raise| |].
    + apply steady_call, Hp, list_elem_of_here.
    + apply steady_bind; [apply quiet_call|apply steady_call, Hp, list_elem_of_here|].
      intros h0.
      apply steady_bind;
        [apply quiet_call|apply steady_call, Hp, list_elem_of_further, list_elem_of_here|].
      intros h1.
      apply steady_bind; [apply quiet_lift|apply steady_lift|]. intros s. apply steady_ret.
  - intros heats.
    apply steady_bind; [apply quiet_lift|apply steady_lift|]. intros kpts.
    apply steady_bind; [apply quiet_lift|apply steady_lift|]. intros gt.
    apply steady_bind; [apply quiet_lift|apply steady_lift|]. intros nk.
    apply steady_bind; [apply quiet_lift|apply steady_lift|]. intros tot.
    apply steady_bind; [| |intros _; apply steady_ret].
    + destruct vis; [|apply quiet_ret].
      destruct (di =? 0)%Z; [apply quiet_raise|].
      destruct (idx a mod di =? 0)%Z; [apply quiet_visualize|apply quiet_ret].
    + destruct vis; [|apply steady_ret].
      destruct (di =? 0)%Z; [apply steady_raise|].
      destruct (idx a mod di =? 0)%Z; [apply steady_visualize|apply steady_ret].
Qed.

End Steady.

Section EvaluateScores.

Variables (loader : dataloader) (img : Q) (p1 p2 : option network).
Variables (status : string) (vis : bool) (logger : option unit) (di : Z).
Variables (show_gt is_target : bool).

(** X23. What [evaluate] returns or raises does not depend on the modes the
    networks were in before the call, nor on what was recorded before: every
    forward pass of the batch loop runs in inference mode. *)
Theorem evaluate_mode_independent (base_net : option network) (w w' : world) :
  snd (evaluate base_net loader img p1 p2 status vis logger di show_gt is_target w) =
  snd (evaluate base_net loader img p1 p2 status vis logger di show_gt is_target w').
Proof.
  destruct base_net as [base|]; [|done].
  rewrite !evaluate_eq. destruct (check_args _ _ _) as [[]|]; [|done].
  rewrite !evaluate_body_run. destruct (device base) as [d|]; [|done].
  assert (Hl : snd (batch_loop base loader img p1 p2 status vis di show_gt is_target w) =
               snd (batch_loop base loader img p1 p2 status vis di show_gt is_target w')).
  { unfold batch_loop. apply (steady_for_each (participants base p1 p2)).
    - intros; apply quiet_batch_body.
    - intros s x. apply steady_batch_body; [apply list_elem_of_here|].
      intros p Hp. by apply list_elem_of_further.
    - apply loop_start_inference.
    - apply loop_start_inference. }
  destruct (batch_loop _ _ _ _ _ _ _ _ _ _ w) as [w3 r3].
  destruct (batch_loop _ _ _ _ _ _ _ _ _ _ w') as [w3' r3'].
  cbn [snd] in Hl. subst r3'. destruct r3 as [a|e]; [|done].
  destruct (finish_run status logger (if is_target then "tgt" else "src")%string a
              (released base p1 p2 w w3)) as [-> _].
  destruct (finish_run status logger (if is_target then "tgt" else "src")%string a
              (released base p1 p2 w' w3')) as [-> _].
  done.
Qed.

End EvaluateScores.

(** ** The two fractions of [evaluate] *)

Section Scores.

Lemma np_array_shape (l : list (list (Z * Z))) :
  shape (np_array l) = [0%nat] \/ (exists B, shape (np_array l) = [B; 0%nat]) \/
  exists B C, shape (np_array l) = [B; C; 2%nat].
Proof.
  unfold np_array. destruct l as [|[|kpt kpts] l]; cbn [shape]; eauto.
Qed.

Lemma batch_counts_np_array base pred_nets img b r :
  batch_counts base pred_nets img b = Ok r -> exists l, fst r = np_array l.
Proof.
  unfold batch_counts. intros H.
  destruct (forward base false (inputs b)); [|done]. cbn [bind] in H.
  destruct (match pred_nets with [] => _ | _ => _ end) as [heats|]; [|done]. cbn [bind] in H.
  unfold get_kpts in H. destruct (get_kpts_list _ _ _) as [l|]; [|done]. cbn [bind] in H.
  destruct (slice_last2 _); [|done]. cbn [bind] in H.
  destruct (PCK_curve_pnts _ _ _ _); [|done]. cbn [bind] in H.
  injection H as <-. by exists l.
Qed.

(** When the true keypoints of a batch have the shape of the predicted
    ones, the count of the batch at a threshold of the sweep is a whole
    number of keypoints, at most the number of keypoints of the batch. *)
Lemma count_at_bounds base pred_nets img b r i gt :
  batch_counts base pred_nets img b = Ok r -> (i < length thresholds)%nat ->
  slice_last2 (gt_kpts b) = Ok gt -> shape gt = shape (fst r) ->
  (0 <= count_at i r)%Q /\ (count_at i r <= keypoints_of r)%Q.
Proof.
  intros Hr Hi Hgt Hshape. destruct (lookup_lt_is_Some_2 thresholds i Hi) as [t Ht].
  destruct (batch_counts_PCK _ _ _ _ _ _ _ Hr Ht) as (gt' & p & Hgt' & Hp).
  assert (gt' = gt) as -> by congruence.
  destruct (batch_counts_np_array _ _ _ _ _ Hr) as (l & Hl).
  destruct (np_array_shape l) as [Hs|[(B & Hs)|(B & C & Hs)]]; rewrite <- Hl in Hs.
  - exfalso. unfold PCK, elementwise in Hp. rewrite decide_True in Hp by done.
    cbn [bind pointwise shape] in Hp. unfold sum_dim2 in Hp. cbn [shape] in Hp.
    by rewrite Hs in Hp.
  - exfalso. unfold PCK, elementwise in Hp. rewrite decide_True in Hp by done.
    cbn [bind pointwise shape] in Hp. unfold sum_dim2 in Hp. cbn [shape] in Hp.
    by rewrite Hs in Hp.
  - rewrite (PCK_same_shape _ _ _ _ B C 2) in Hp by congruence. cbv zeta in Hp.
    destruct (B * C =? 0)%nat; [done|]. injection Hp as _ Hn. rewrite <- Hn.
    split; [apply Qnat_nonneg|].
    unfold keypoints_of, numel. rewrite Hs. cbn [prod_shape foldr].
    apply Qle_shift_div_l; [reflexivity|].
    change 2%Q with (Qnat 2). unfold Qnat. rewrite <- inject_Z_mult, <- Zle_Qle.
    match goal with |- (Z.of_nat (count_true ?x) * _ <= _)%Z =>
      pose proof (count_true_le_length x) as Hle end.
    rewrite !length_fmap, length_chunks in Hle. lia.
Qed.

Lemma Qsum_le (f g : tensor * list Q -> Q) (per : list (tensor * list Q)) :
  Forall (fun r => (f r <= g r)%Q) per -> (Qsum (f <$> per) <= Qsum (g <$> per))%Q.
Proof.
  induction 1 as [|r per Hr _ IH]; [apply Qle_refl|].
  rewrite !fmap_cons, !Qsum_cons. lra.
Qed.

Lemma count_at_sorted base pred_nets img b r i j :
  batch_counts base pred_nets img b = Ok r -> (i <= j < length thresholds)%nat ->
  (count_at i r <= count_at j r)%Q.
Proof.
  intros Hr Hij. destruct (batch_counts_curve _ _ _ _ _ Hr) as (gt' & Hc).
  pose proof (mapM_length _ _ _ Hc) as Hlen.
  destruct (lookup_lt_is_Some_2 (snd r) i) as [a Ha]; [lia|].
  destruct (lookup_lt_is_Some_2 (snd r) j) as [c Hc']; [lia|].
  unfold count_at. rewrite Ha, Hc'. cbn [default].
  apply (PCK_curve_pnts_sorted _ _ _ _ i j a c Hc); [lia|done|done].
Qed.

Variables (loader : dataloader) (img : Q) (p1 p2 : option network).
Variables (status : string) (vis : bool) (logger : option unit) (di : Z).
Variables (show_gt is_target : bool).

(** The two results of [evaluate] as sums over the batches. *)
Lemma evaluate_sums (base : network) (w : world) (r1 r2 : Q) :
  snd (evaluate (Some base) loader img p1 p2 status vis logger di show_gt is_target w)
    = Ok (r1, r2) ->
  exists per,
    Forall2 (fun b r => batch_counts base (opt_list p1 ++ opt_list p2) img b = Ok r)
            (batches loader) per /\
    ~ (Qsum (keypoints_of <$> per) == 0)%Q /\
    (r1 == Qsum (count_at 5 <$> per) / Qsum (keypoints_of <$> per))%Q /\
    (r2 == Qsum (count_at 20 <$> per) / Qsum (keypoints_of <$> per))%Q.
Proof.
  intros H.
  destruct (evaluate _ _ _ _ _ _ _ _ _ _ _ w) as [w' res] eqn:E. simpl in H. subst res.
  apply evaluate_Some, evaluate_body_Ok in E. cbv zeta in E.
  destruct E as (w3 & a & tot & Hloop & _ & _ & Hdiv & H5 & Hlast).
  cbn [fst snd] in H5, Hlast.
  apply batch_loop_Ok in Hloop as (per & Hper & Hpnt & Hlen & Hcnt); cbn [training].
  2: { apply eval_all_participant, list_elem_of_here. }
  2: { intros p Hp. apply eval_all_participant. by apply list_elem_of_further. }
  cbn [tot_pnt tot_nkpts] in Hpnt, Hlen, Hcnt. rewrite length_replicate in Hlen.
  destruct (for_range_pointwise _ _ _ _ _ (div_at_pointwise (tot_pnt a)) Hdiv)
    as (Hlen' & _ & Hlt & _).
  rewrite Hlen in Hlen', Hlt. change (length thresholds) with 21%nat in *.
  rewrite last_lookup, Hlen' in Hlast. cbn [pred] in Hlast.
  exists per. split; [done|].
  assert (Hres : forall i ri, (i < 21)%nat -> tot !! i = Some ri ->
            ~ (tot_pnt a == 0)%Q /\ (ri == Qsum (count_at i <$> per) / tot_pnt a)%Q).
  { intros i ri Hi Hri. destruct (Hlt i Hi) as (x & v & Hx & Hv & Htot).
    destruct (Qeq_bool (tot_pnt a) 0) eqn:Hz; [done|]. injection Hv as <-.
    assert (ri = (x / tot_pnt a)%Q) as -> by congruence.
    destruct (Hcnt i 0%Q) as (y & Hy & Hyeq); [by apply lookup_replicate_2|].
    assert (y = x) as -> by congruence.
    split; [by apply Qeq_bool_neq|]. rewrite Hyeq. field. by apply Qeq_bool_neq. }
  destruct (Hres 5%nat r1) as [Hnz Hr1]; [lia|done|].
  destruct (Hres 20%nat r2) as [_ Hr2]; [lia|done|].
  assert (Htot : (tot_pnt a == Qsum (keypoints_of <$> per))%Q) by (rewrite Hpnt; ring).
  rewrite <- Htot. done.
Qed.

(** X22. When [evaluate] returns on a loader whose true keypoints have, in
    every batch, the shape of the predicted ones, its two fractions are
    ordered: the one at threshold 0.05 is at least 0 and at most the one at
    threshold 0.2, which is at most 1. *)
Theorem evaluate_scores_ordered (base : network) (w : world) (r1 r2 : Q) :
  (forall b r, b ∈ batches loader ->
     batch_counts base (opt_list p1 ++ opt_list p2) img b = Ok r ->
     exists gt, slice_last2 (gt_kpts b) = Ok gt /\ shape gt = shape (fst r)) ->
  snd (evaluate (Some base) loader img p1 p2 status vis logger di show_gt is_target w)
    = Ok (r1, r2) ->
  (0 <= r1)%Q /\ (r1 <= r2)%Q /\ (r2 <= 1)%Q.
Proof.
  intros Hshape H. destruct (evaluate_sums _ _ _ _ H) as (per & Hper & Hnz & -> & ->).
  set (total := Qsum (keypoints_of <$> per)) in *.
  assert (Hall : forall i, (i < length thresholds)%nat ->
            Forall (fun r => (0 <= count_at i r)%Q /\ (count_at i r <= keypoints_of r)%Q) per).
  { intros i Hi. apply Forall_forall. intros r [k Hk]%list_elem_of_lookup.
    destruct (Forall2_lookup_r _ _ _ _ _ Hper Hk) as (b & Hbk & Hb).
    destruct (Hshape b r (list_elem_of_lookup_2 _ _ _ Hbk) Hb) as (gt & Hgt & Hs).
    by apply (count_at_bounds _ _ _ _ _ _ gt Hb). }
  assert (H5 : (0 <= Qsum (count_at 5 <$> per))%Q).
  { apply Qsum_nonneg, Forall_fmap. eapply Forall_impl; [apply (Hall 5%nat); cbn; lia|].
    by intros r [? _]. }
  assert (H520 : (Qsum (count_at 5 <$> per) <= Qsum (count_at 20 <$> per))%Q).
  { apply Qsum_le, Forall_forall. intros r [k Hk]%list_elem_of_lookup.
    destruct (Forall2_lookup_r _ _ _ _ _ Hper Hk) as (b & _ & Hb).
    apply (count_at_sorted _ _ _ _ _ _ _ Hb). cbn. lia. }
  assert (H20 : (Qsum (count_at 20 <$> per) <= total)%Q).
  { apply Qsum_le. eapply Forall_impl; [apply (Hall 20%nat); cbn; lia|]. by intros r [_ ?]. }
  assert (Hpos : (0 < total)%Q).
  { destruct (Qlt_le_dec 0 total) as [|Hle]; [done|]. destruct Hnz. lra. }
  split; [|split].
  - apply Qle_shift_div_l; [done|]. lra.
  - apply Qle_shift_div_l; [done|].
    assert (E : (Qsum (count_at 5 <$> per) / total * total == Qsum (count_at 5 <$> per))%Q)
      by (field; lra).
    apply (Qle_trans _ (Qsum (count_at 5 <$> per))); [|done].
    apply Qle_lteq. by right.
  - apply Qle_shift_div_r; [done|]. lra.
Qed.

End Scores.

(** ** [gaussian_kernel] *)

Section Kernel.

Variables (size_w size_h : Z) (center_x center_y sigma : R).

Lemma mgrid_axis_lookup (n : Z) (k : nat) (g : R) :
  mgrid_axis n !! k = Some g <-> (k < Z.to_nat n)%nat /\ g = INR k.
Proof.
  unfold mgrid_axis. rewrite list_lookup_fmap. split.
  - destruct (seq 0 (Z.to_nat n) !! k) as [j|] eqn:E; [|done].
    apply lookup_seq in E as [-> ?]. cbn. by intros [= <-].
  - intros [Hk ->]. by rewrite lookup_seq_lt.
Qed.

Lemma gaussian_kernel_lookup (y x : nat) (row : list R) (v : R) :
  gaussian_kernel size_w size_h center_x center_y sigma !! y = Some row ->
  row !! x = Some v ->
  (y < Z.to_nat size_h)%nat /\ (x < Z.to_nat size_w)%nat /\
  v = exp (kernel_exponent center_x center_y sigma (INR x) (INR y)).
Proof.
  unfold gaussian_kernel. rewrite list_lookup_fmap. intros Hy Hx.
  destruct (mgrid_axis size_h !! y) as [gy|] eqn:Ey; [|done].
  apply mgrid_axis_lookup in Ey as [Hlt ->]. injection Hy as <-.
  rewrite list_lookup_fmap in Hx.
  destruct (mgrid_axis size_w !! x) as [gx|] eqn:Ex; [|done].
  apply mgrid_axis_lookup in Ex as [Hlt' ->]. by injection Hx as <-.
Qed.

Lemma kernel_exponent_eq (gx gy : R) :
  sigma <> 0%R ->
  kernel_exponent center_x center_y sigma gx gy
  = (- (((gx - center_x) ^ 2 + (gy - center_y) ^ 2) / (2 * sigma ^ 2)))%R.
Proof. intros H. unfold kernel_exponent. by field. Qed.

Lemma sigma_square_pos : sigma <> 0%R -> (0 < 2 * sigma ^ 2)%R.
Proof.
  intros H. pose proof (pow2_ge_0 sigma). pose proof (pow_nonzero sigma 2 H). lra.
Qed.

Lemma kernel_exponent_nonpos (gx gy : R) :
  sigma <> 0%R -> (kernel_exponent center_x center_y sigma gx gy <= 0)%R.
Proof.
  intros H. rewrite kernel_exponent_eq by done.
  pose proof (sigma_square_pos H).
  assert (0 <= (gx - center_x) ^ 2 + (gy - center_y) ^ 2)%R
    by (pose proof (pow2_ge_0 (gx - center_x)); pose proof (pow2_ge_0 (gy - center_y)); lra).
  assert (0 <= ((gx - center_x) ^ 2 + (gy - center_y) ^ 2) / (2 * sigma ^ 2))%R
    by (apply Rmult_le_pos; [lra|left; apply Rinv_0_lt_compat; lra]).
  lra.
Qed.

(** X24. For [sigma] other than 0 every entry of the kernel lies between 0
    and 1. *)
Theorem gaussian_kernel_bounds (y x : nat) (row : list R) (v : R) :
  sigma <> 0%R ->
  gaussian_kernel size_w size_h center_x center_y sigma !! y = Some row ->
  row !! x = Some v ->
  (0 <= v <= 1)%R.
Proof.
  intros Hs Hy Hx. destruct (gaussian_kernel_lookup _ _ _ _ Hy Hx) as (_ & _ & ->).
  split; [left; apply exp_pos|]. rewrite <- exp_0.
  destruct (kernel_exponent_nonpos (INR x) (INR y) Hs) as [Hlt| ->]; [|lra].
  left. by apply exp_increasing.
Qed.

(** X26. For [sigma] other than 0 the kernel decreases with the distance
    to the centre: of two grid places, the one at most as far from the centre
    has at least the value of the other. *)
Theorem gaussian_kernel_decreasing (y x y' x' : nat) (row row' : list R) (v v' : R) :
  sigma <> 0%R ->
  gaussian_kernel size_w size_h center_x center_y sigma !! y = Some row ->
  row !! x = Some v ->
  gaussian_kernel size_w size_h center_x center_y sigma !! y' = Some row' ->
  row' !! x' = Some v' ->
  ((INR x - center_x) ^ 2 + (INR y - center_y) ^ 2
     <= (INR x' - center_x) ^ 2 + (INR y' - center_y) ^ 2)%R ->
  (v' <= v)%R.
Proof.
  intros Hs Hy Hx Hy' Hx' Hd.
  destruct (gaussian_kernel_lookup _ _ _ _ Hy Hx) as (_ & _ & ->).
  destruct (gaussian_kernel_lookup _ _ _ _ Hy' Hx') as (_ & _ & ->).
  rewrite !kernel_exponent_eq by done.
  pose proof (sigma_square_pos Hs).
  assert (((INR x - center_x) ^ 2 + (INR y - center_y) ^ 2) / (2 * sigma ^ 2)
          <= ((INR x' - center_x) ^ 2 + (INR y' - center_y) ^ 2) / (2 * sigma ^ 2))%R as [Hlt|Heq].
  { apply Rmult_le_compat_r; [|done]. left. by apply Rinv_0_lt_compat. }
  - left. apply exp_increasing. lra.
  - right. by rewrite Heq.
Qed.

End Kernel.

(** X25. With its centre on a grid place (column [x], row [y]) and [sigma]
    other than 0 the kernel is 1 there; the row is indexed by [y] and bounded
    by [size_h], the column by [x] and [size_w]. *)
Theorem gaussian_kernel_peak (size_w size_h : Z) (x y : nat) (sigma : R) :
  sigma <> 0%R -> (y < Z.to_nat size_h)%nat -> (x < Z.to_nat size_w)%nat ->
  exists row, gaussian_kernel size_w size_h (INR x) (INR y) sigma !! y = Some row /\
              row !! x = Some 1%R.
Proof.
  intros _ Hy Hx. eexists. unfold gaussian_kernel. split.
  - rewrite list_lookup_fmap. by rewrite (proj2 (mgrid_axis_lookup size_h y (INR y))).
  - rewrite list_lookup_fmap. rewrite (proj2 (mgrid_axis_lookup size_w x (INR x))) by done.
    cbn. f_equal. rewrite <- exp_0. f_equal. unfold kernel_exponent.
    replace ((INR x - INR x) ^ 2 + (INR y - INR y) ^ 2)%R with 0%R by ring.
    unfold Rdiv. ring.
Qed.

(** X27. The kernel depends on [sigma] through its square only: for
    [sigma] other than 0, [-sigma] gives the same kernel. *)
Theorem gaussian_kernel_sigma_sign (size_w size_h : Z) (center_x center_y sigma : R) :
  sigma <> 0%R ->
  gaussian_kernel size_w size_h center_x center_y (- sigma)
  = gaussian_kernel size_w size_h center_x center_y sigma.
Proof.
  intros _. unfold gaussian_kernel. apply list_fmap_ext. intros _ gy _.
  apply list_fmap_ext. intros _ gx _. f_equal. unfold kernel_exponent, Rdiv.
  rewrite Rinv_opp. ring.
Qed.

(** * Instances of the further facts *)

Lemma PCK_range_witness :
  exists k : nat,
    PCK Examples.pred_kpts Examples.true_kpts 8 (20 # 200) =
      Ok ((Qnat k / Qnat (1 * 2))%Q, Qnat k) /\
    (k <= 1 * 2)%nat /\
    (0 <= Qnat k / Qnat (1 * 2))%Q /\ (Qnat k / Qnat (1 * 2) <= 1)%Q.
Proof.
  apply (PCK_range Examples.pred_kpts Examples.true_kpts 8 (20 # 200) 1 2 2 eq_refl eq_refl).
  simpl. lia.
Defined.

Lemma PCK_no_keypoints_witness :
  PCK MoreExamples.no_keypoints MoreExamples.no_keypoints 8 0.2 = Raise ZeroDivisionError.
Proof.
  exact (PCK_no_keypoints MoreExamples.no_keypoints MoreExamples.no_keypoints 8 0.2
           0 2 2 eq_refl eq_refl eq_refl).
Defined.

Lemma PCK_zero_tolerance_witness :
  PCK Examples.true_kpts Examples.true_kpts 8 0 = Ok ((0 # 2)%Q, 0%Q) /\
  0%Q = 0%Q /\ (0 # 2 == 0)%Q.
Proof.
  split; [reflexivity|].
  apply (PCK_zero_tolerance Examples.true_kpts Examples.true_kpts 8 0 (0 # 2) 0).
  - discriminate.
  - reflexivity.
Defined.



Lemma get_kpts_empty_channel_witness :
  get_kpts_list MoreExamples.empty_map 8 8 = Raise ValueError /\
  get_kpts MoreExamples.empty_map 8 8 = Raise ValueError.
Proof.
  apply (get_kpts_empty_channel MoreExamples.empty_map 1 1 0 4 8 8 eq_refl); lia.
Defined.

Lemma get_kpts_shape_witness :
  exists kpts,
    get_kpts Examples.heatmap 8 8 = Ok kpts /\
    tensor_wf kpts /\ requires_grad kpts = false /\
    shape kpts = [1%nat; 1%nat; 2%nat].
Proof.
  apply (get_kpts_shape Examples.heatmap 1 1 4 4 8 8 eq_refl eq_refl);
    first [lia | discriminate].
Defined.

Lemma get_kpts_order_preserving_witness :
  get_kpts (pointwise (fun x => x / 2)%Q Examples.heatmap) 8 8 =
  get_kpts Examples.heatmap 8 8.
Proof.
  exact (get_kpts_order_preserving (fun x => x / 2)%Q Examples.heatmap 8 8 halving_order).
Defined.

Lemma smooth_l1_loss_absolute_error_witness :
  let abs_err := zip_with (fun x y => Qabs (x - y))
                          (data Examples.loss_input) (data Examples.loss_target) in
  exists s, smooth_l1_loss Examples.loss_input Examples.loss_target 1 false = Ok (Num s) /\
    (Qsum abs_err - 0.5 * 1 * Qnat (length abs_err) <= s)%Q /\
    (s <= Qsum abs_err)%Q.
Proof.
  apply (smooth_l1_loss_absolute_error Examples.loss_input Examples.loss_target 1);
    reflexivity.
Defined.

Lemma smooth_l1_loss_equal_zero_witness :
  exists q, smooth_l1_loss Examples.loss_input Examples.loss_input 1 true = Ok (Num q) /\
            (q == 0)%Q.
Proof.
  apply (smooth_l1_loss_equal_zero Examples.loss_input Examples.loss_input 1 true).
  - reflexivity.
  - repeat constructor.
  - discriminate.
  - intros _. vm_compute. lia.
Defined.

Lemma discrepancy_swap_heads_witness :
  discrepancy Examples.src_batch Examples.tgt_batch Examples.tracking_net
              Examples.doubling_head Examples.identity_net default_criterion =
    Ok (Tensor [3%nat; 2%nat] [1; 2; 3; 4; 5; 6]%Q false, Num (24000000 # 8000000)).
Proof.
  apply (discrepancy_swap_heads Examples.src_batch Examples.tgt_batch Examples.tracking_net
           Examples.identity_net Examples.doubling_head default_criterion).
  - intros a b. apply smooth_l1_loss_swap.
  - vm_compute. reflexivity.
Defined.

Lemma discrepancy_swap_domains_witness :
  exists source_feat target_feat union_feat',
    Examples.tracking_net Examples.src_batch = Ok source_feat /\
    Examples.tracking_net Examples.tgt_batch = Ok target_feat /\
    [1; 2; 3; 4; 5; 6]%Q = data source_feat ++ data target_feat /\
    data union_feat' = data target_feat ++ data source_feat /\
    discrepancy Examples.tgt_batch Examples.src_batch Examples.tracking_net
                Examples.identity_net Examples.doubling_head default_criterion =
      Ok (union_feat', Num (24000000 # 8000000)).
Proof.
  apply (discrepancy_swap_domains Examples.src_batch Examples.tgt_batch
           Examples.tracking_net Examples.identity_net Examples.doubling_head
           default_criterion (Tensor [3%nat; 2%nat] [1; 2; 3; 4; 5; 6]%Q false)
           (Num (24000000 # 8000000))).
  vm_compute. reflexivity.
Defined.

Lemma participants_disjoint :
  NoDup (participants Examples.backbone (Some Examples.strict_head) None ≫= modules).
Proof.
  change (NoDup [0%nat; 1%nat]). apply NoDup_cons. split; [|apply NoDup_singleton].
  intros H%list_elem_of_singleton. discriminate H.
Qed.

Lemma evaluate_empty_loader_witness :
  let nets := participants Examples.backbone (Some Examples.strict_head) None in
  let after := released Examples.backbone (Some Examples.strict_head) None
                 Examples.mixed_world
                 (loop_start Examples.backbone (Some Examples.strict_head) None
                    Examples.mixed_world) in
  evaluate (Some Examples.backbone) MoreExamples.empty_loader 8
           (Some Examples.strict_head) None "pck"%string false (Some tt) 50 true true
           Examples.mixed_world = (after, Raise ZeroDivisionError) /\
  trace after =
    trace Examples.mixed_world ++ ((fun net => EvEval (net_id net)) <$> nets)
      ++ ((fun sn => EvTrain (net_id (snd sn)) (fst sn))
            <$> zip (snapshot (training Examples.mixed_world) nets) nets) /\
  (NoDup (nets ≫= modules) ->
   (forall net, net ∈ nets ->
      training after !!! net_id net = training Examples.mixed_world !!! net_id net) /\
   (forall id, id ∉ nets ≫= modules ->
      training after !!! id = training Examples.mixed_world !!! id)).
Proof.
  cbv zeta.
  apply (evaluate_empty_loader Examples.backbone MoreExamples.empty_loader 8
           (Some Examples.strict_head) None "pck"%string false (Some tt) 50 true true
           Examples.mixed_world); [reflexivity|reflexivity|discriminate].
Defined.

Lemma evaluate_no_parameters_witness :
  evaluate (Some MoreExamples.bare_net) Examples.loader 8
           (Some Examples.strict_head) None "pck"%string false (Some tt) 50 true true
           Examples.world0 = (Examples.world0, Raise StopIteration).
Proof.
  apply (evaluate_no_parameters MoreExamples.bare_net Examples.loader 8
           (Some Examples.strict_head) None "pck"%string false (Some tt) 50 true true
           Examples.world0); reflexivity.
Defined.

Lemma evaluate_modes_after_witness :
  let nets := participants Examples.backbone (Some Examples.strict_head) None in
  let out := evaluate (Some Examples.backbone) Examples.bad_loader 8
               (Some Examples.strict_head) None "pck"%string false (Some tt) 50 true true
               Examples.mixed_world in
  (forall id, id ∉ nets ≫= modules ->
     training (fst out) !!! id = training Examples.mixed_world !!! id) /\
  ((forall net, net ∈ nets ->
      training (fst out) !!! net_id net = training Examples.mixed_world !!! net_id net) \/
   ((exists e, snd out = Raise e) /\
    forall net id, net ∈ nets -> id ∈ modules net -> training (fst out) !!! id = false)).
Proof.
  cbv zeta.
  apply (evaluate_modes_after Examples.backbone Examples.bad_loader 8
           (Some Examples.strict_head) None "pck"%string false (Some tt) 50 true true
           Examples.mixed_world).
  exact participants_disjoint.
Defined.

Lemma evaluate_head_twice_witness :
  training Examples.world0 !!! net_id Examples.strict_head = true /\
  training (fst (evaluate (Some Examples.backbone) Examples.loader 8
                   (Some Examples.strict_head) (Some Examples.strict_head)
                   "pck"%string false (Some tt) 50 true true Examples.world0))
    !!! net_id Examples.strict_head = false.
Proof.
  split; [reflexivity|].
  apply (evaluate_head_twice Examples.backbone Examples.loader 8
           (Some Examples.strict_head) (Some Examples.strict_head)
           "pck"%string false (Some tt) 50 true true Examples.strict_head
           Examples.world0 _ ((2 # 2)%Q, (2 # 2)%Q) eq_refl eq_refl).
  vm_compute. reflexivity.
Defined.

Lemma evaluate_zero_interval_witness :
  exists e,
    snd (evaluate (Some Examples.backbone) Examples.loader 8
           (Some Examples.strict_head) None "pck"%string true (Some tt) 0 true true
           Examples.world0) = Raise e.
Proof.
  exact (evaluate_zero_interval Examples.loader 8 (Some Examples.strict_head) None
           "pck"%string true (Some tt) 0 true true (Some Examples.backbone)
           Examples.world0 eq_refl eq_refl).
Defined.

Lemma evaluate_scores_ordered_witness :
  snd (evaluate (Some Examples.backbone) Examples.loader 8
         (Some Examples.strict_head) None "pck"%string false (Some tt) 50 true true
         Examples.world0) = Ok ((2 # 2)%Q, (2 # 2)%Q) /\
  (0 <= 2 # 2)%Q /\ (2 # 2 <= 2 # 2)%Q /\ (2 # 2 <= 1)%Q.
Proof.
  split; [reflexivity|].
  apply (evaluate_scores_ordered Examples.loader 8 (Some Examples.strict_head) None
           "pck"%string false (Some tt) 50 true true Examples.backbone
           Examples.world0 (2 # 2) (2 # 2)); [|reflexivity].
  intros b r Hb%list_elem_of_singleton Hr. subst b.
  vm_compute in Hr. injection Hr as <-.
  eexists. split; reflexivity.
Defined.

Lemma gaussian_kernel_bounds_witness :
  (0 <= exp (kernel_exponent 0 0 1 (INR 1) (INR 0)) <= 1)%R.
Proof.
  eapply (gaussian_kernel_bounds 2 1 0 0 1 0 1); [lra|reflexivity|reflexivity].
Defined.

Lemma gaussian_kernel_decreasing_witness :
  (exp (kernel_exponent 0 0 1 (INR 1) (INR 0))
   <= exp (kernel_exponent 0 0 1 (INR 0) (INR 0)))%R.
Proof.
  eapply (gaussian_kernel_decreasing 2 1 0 0 1 0 0 0 1);
    [lra|reflexivity|reflexivity|reflexivity|reflexivity|simpl; lra].
Defined.

Lemma gaussian_kernel_peak_witness :
  exists row, gaussian_kernel 2 1 (INR 1) (INR 0) 1 !! 0%nat = Some row /\
              row !! 1%nat = Some 1%R.
Proof.
  apply (gaussian_kernel_peak 2 1 1 0 1); [lra|simpl; lia|simpl; lia].
Defined.

Lemma gaussian_kernel_sigma_sign_witness :
  gaussian_kernel 2 1 0 0 (- 1) = gaussian_kernel 2 1 0 0 1.
Proof.
  apply (gaussian_kernel_sigma_sign 2 1 0 0 1). lra.
Defined.
